(** * The panel's root controller ([App]) as a state machine

    A shallow embedding of the root component of the extension panel: its
    React state, the handlers that mutate it, the asynchronous collaborator
    calls it issues, and the render plan derived from the state.

    - Strings are JavaScript strings: sequences of UTF-16 code units.
    - Pixel coordinates are JavaScript numbers: IEEE 754 binary64 values,
      here Rocq's primitive floats, whose operations round as JavaScript's
      do.
    - An [async] handler is split at its [await]: the part that runs when
      the handler is called, and the part that runs when the awaited promise
      settles.  The calls in flight are kept in a finite map from call
      identifiers to calls, so that any interleaving of settlements can be
      replayed.
    - The copy button of [ContentSection] is embedded the same way, in a
      module of its own. *)

From Stdlib Require Import ZArith Lia Floats.
From stdpp Require Import base option list strings gmap.

Local Open Scope N_scope.

(** ** JavaScript strings *)

Module JsString.

(** A string is the list of its UTF-16 code units. *)
Definition t : Type := list N.

(** Code units of an ASCII literal. *)
Definition of_string (s : String.string) : t :=
  map Ascii.N_of_ascii (String.list_ascii_of_string s).

(** ECMAScript [WhiteSpace] and [LineTerminator] code points, the ones
    [String.prototype.trim] strips. *)
Definition is_white_space (c : N) : bool :=
  (c =? 0x09) || (c =? 0x0A) || (c =? 0x0B) || (c =? 0x0C) || (c =? 0x0D)
  || (c =? 0x20) || (c =? 0xA0) || (c =? 0x1680)
  || ((0x2000 <=? c) && (c <=? 0x200A))
  || (c =? 0x2028) || (c =? 0x2029) || (c =? 0x202F) || (c =? 0x205F)
  || (c =? 0x3000) || (c =? 0xFEFF).

Fixpoint trimStart (s : t) : t :=
  match s with
  | [] => []
  | c :: s' => if is_white_space c then trimStart s' else s
  end.

Definition trimEnd (s : t) : t := rev (trimStart (rev s)).

(** [s.trim()] *)
Definition trim (s : t) : t := trimEnd (trimStart s).

(** [s.length] *)
Definition length (s : t) : nat := List.length s.

(** Truthiness of a string value: every string but the empty one. *)
Definition truthy (s : t) : bool :=
  match s with [] => false | _ :: _ => true end.

Definition is_empty (s : t) : bool := negb (truthy s).

End JsString.

Abbreviation jsstring := JsString.t.
Notation "'js:' s" := (JsString.of_string s%string) (at level 9, s at level 0, only parsing).

Local Close Scope N_scope.

(** ** Geometry *)

(** The fields of the selection's [DOMRect] the handler reads. *)
Record Rect := mkRect {
  rect_left : float;
  rect_top : float;
  rect_width : float;
  rect_bottom : float
}.

Record Point := mkPoint { px : float; py : float }.

(** ** The React state of [App] *)

Inductive AnswerType := Define | Elaborate | Search.

Inductive SearchScope := ScopeAll | ScopeDomain | ScopePage.

Record SelectionPopupState := mkPopup {
  position : option Point;
  text : jsstring;
  visible : bool
}.

Record AppState := mkApp {
  loading : bool;
  question : jsstring;
  answer : jsstring;
  searchAnswer : jsstring;
  answerType : option AnswerType;
  summary : jsstring;
  url : jsstring;
  showFocusModal : bool;
  searchScope : SearchScope;
  isSummarizing : bool;
  isSummarized : bool;
  darkMode : bool;
  selectionPopup : SelectionPopupState
}.

#[global] Instance AnswerType_eq_dec : EqDecision AnswerType.
Proof. solve_decision. Defined.

#[global] Instance SearchScope_eq_dec : EqDecision SearchScope.
Proof. solve_decision. Defined.

(** The arguments of the [useState] calls. *)
Definition initial_popup : SelectionPopupState :=
  {| position := None; text := []; visible := false |}.

Definition initial_state : AppState :=
  {| loading := false; question := []; answer := []; searchAnswer := [];
     answerType := None; summary := []; url := []; showFocusModal := false;
     searchScope := ScopePage; isSummarizing := false; isSummarized := false;
     darkMode := false; selectionPopup := initial_popup |}.

(** The state setters returned by [useState]: each replaces one field. *)
Definition setLoading (v : bool) (s : AppState) : AppState :=
  mkApp v (question s) (answer s) (searchAnswer s) (answerType s) (summary s)
        (url s) (showFocusModal s) (searchScope s) (isSummarizing s)
        (isSummarized s) (darkMode s) (selectionPopup s).

Definition setQuestion (v : jsstring) (s : AppState) : AppState :=
  mkApp (loading s) v (answer s) (searchAnswer s) (answerType s) (summary s)
        (url s) (showFocusModal s) (searchScope s) (isSummarizing s)
        (isSummarized s) (darkMode s) (selectionPopup s).

Definition setAnswer (v : jsstring) (s : AppState) : AppState :=
  mkApp (loading s) (question s) v (searchAnswer s) (answerType s) (summary s)
        (url s) (showFocusModal s) (searchScope s) (isSummarizing s)
        (isSummarized s) (darkMode s) (selectionPopup s).

Definition setSearchAnswer (v : jsstring) (s : AppState) : AppState :=
  mkApp (loading s) (question s) (answer s) v (answerType s) (summary s)
        (url s) (showFocusModal s) (searchScope s) (isSummarizing s)
        (isSummarized s) (darkMode s) (selectionPopup s).

Definition setAnswerType (v : option AnswerType) (s : AppState) : AppState :=
  mkApp (loading s) (question s) (answer s) (searchAnswer s) v (summary s)
        (url s) (showFocusModal s) (searchScope s) (isSummarizing s)
        (isSummarized s) (darkMode s) (selectionPopup s).

Definition setSummary (v : jsstring) (s : AppState) : AppState :=
  mkApp (loading s) (question s) (answer s) (searchAnswer s) (answerType s) v
        (url s) (showFocusModal s) (searchScope s) (isSummarizing s)
        (isSummarized s) (darkMode s) (selectionPopup s).

Definition setUrl (v : jsstring) (s : AppState) : AppState :=
  mkApp (loading s) (question s) (answer s) (searchAnswer s) (answerType s)
        (summary s) v (showFocusModal s) (searchScope s) (isSummarizing s)
        (isSummarized s) (darkMode s) (selectionPopup s).

Definition setShowFocusModal (v : bool) (s : AppState) : AppState :=
  mkApp (loading s) (question s) (answer s) (searchAnswer s) (answerType s)
        (summary s) (url s) v (searchScope s) (isSummarizing s)
        (isSummarized s) (darkMode s) (selectionPopup s).

Definition setSearchScope (v : SearchScope) (s : AppState) : AppState :=
  mkApp (loading s) (question s) (answer s) (searchAnswer s) (answerType s)
        (summary s) (url s) (showFocusModal s) v (isSummarizing s)
        (isSummarized s) (darkMode s) (selectionPopup s).

Definition setIsSummarizing (v : bool) (s : AppState) : AppState :=
  mkApp (loading s) (question s) (answer s) (searchAnswer s) (answerType s)
        (summary s) (url s) (showFocusModal s) (searchScope s) v
        (isSummarized s) (darkMode s) (selectionPopup s).

Definition setIsSummarized (v : bool) (s : AppState) : AppState :=
  mkApp (loading s) (question s) (answer s) (searchAnswer s) (answerType s)
        (summary s) (url s) (showFocusModal s) (searchScope s)
        (isSummarizing s) v (darkMode s) (selectionPopup s).

Definition setDarkMode (v : bool) (s : AppState) : AppState :=
  mkApp (loading s) (question s) (answer s) (searchAnswer s) (answerType s)
        (summary s) (url s) (showFocusModal s) (searchScope s)
        (isSummarizing s) (isSummarized s) v (selectionPopup s).

(** [setSelectionPopup] takes an updater: a constant one for
    [setSelectionPopup({...})], the given function for
    [setSelectionPopup(prev => ...)]. *)
Definition setSelectionPopup (f : SelectionPopupState -> SelectionPopupState)
    (s : AppState) : AppState :=
  mkApp (loading s) (question s) (answer s) (searchAnswer s) (answerType s)
        (summary s) (url s) (showFocusModal s) (searchScope s)
        (isSummarizing s) (isSummarized s) (darkMode s) (f (selectionPopup s)).

(** ** The world around the component

    Besides the React state, the handlers act on: the collaborator calls in
    flight, the diagnostic console, the scroll timers they schedule, the
    document listeners, the stored theme preference and the [dark] class of
    the document element. *)

Inductive Call :=
| AnalyzeCurrentPage
| AskQuestion (q : jsstring) (scope : SearchScope)
| TabsQuery.

(** How an awaited promise settles.  For [TabsQuery] the value is
    [tabs[0]?.url], with the empty string standing for an absent one (both
    are falsy). *)
Inductive Outcome :=
| Fulfilled (v : jsstring)
| Rejected.

(** The two [console.error] messages. *)
Inductive LogEntry := ErrorAnalyzingPage | ErrorGettingAnswer.

Record World := mkWorld {
  app : AppState;
  inflight : gmap nat Call;
  nextId : nat;
  console : list LogEntry;
  scrolls : nat;
  listening : bool;
  storedDarkMode : option jsstring;
  htmlDark : bool
}.

Definition initial_world (stored : option jsstring) : World :=
  {| app := initial_state; inflight := ∅; nextId := 0; console := [];
     scrolls := 0; listening := false; storedDarkMode := stored;
     htmlDark := false |}.

(** Apply a state setter. *)
Definition upd (f : AppState -> AppState) (w : World) : World :=
  mkWorld (f (app w)) (inflight w) (nextId w) (console w) (scrolls w)
          (listening w) (storedDarkMode w) (htmlDark w).

(** Start a collaborator call; the handler suspends at its [await]. *)
Definition issue (c : Call) (w : World) : World :=
  mkWorld (app w) (<[nextId w := c]> (inflight w)) (S (nextId w)) (console w)
          (scrolls w) (listening w) (storedDarkMode w) (htmlDark w).

(** The awaited promise settled: the call is no longer in flight. *)
Definition retire (id : nat) (w : World) : World :=
  mkWorld (app w) (delete id (inflight w)) (nextId w) (console w) (scrolls w)
          (listening w) (storedDarkMode w) (htmlDark w).

Definition console_error (e : LogEntry) (w : World) : World :=
  mkWorld (app w) (inflight w) (nextId w) (console w ++ [e]) (scrolls w)
          (listening w) (storedDarkMode w) (htmlDark w).

(** [scrollToAnswer]: schedules one smooth scroll of the answer region. *)
Definition scrollToAnswer (w : World) : World :=
  mkWorld (app w) (inflight w) (nextId w) (console w) (S (scrolls w))
          (listening w) (storedDarkMode w) (htmlDark w).

Definition addEventListeners (w : World) : World :=
  mkWorld (app w) (inflight w) (nextId w) (console w) (scrolls w) true
          (storedDarkMode w) (htmlDark w).

Definition localStorage_setItem (v : jsstring) (w : World) : World :=
  mkWorld (app w) (inflight w) (nextId w) (console w) (scrolls w)
          (listening w) (Some v) (htmlDark w).

Definition classList_dark (b : bool) (w : World) : World :=
  mkWorld (app w) (inflight w) (nextId w) (console w) (scrolls w)
          (listening w) (storedDarkMode w) b.

(** ** The handlers *)

(** *** [summarizeCurrentPage] *)

Definition summarizeCurrentPage_begin (w : World) : World :=
  issue AnalyzeCurrentPage (upd (setLoading true) (upd (setIsSummarizing true) w)).

Definition summarizeCurrentPage_resume (o : Outcome) (w : World) : World :=
  let w1 :=
    match o with
    | Fulfilled summary => upd (setIsSummarized true) (upd (setSummary summary) w)
    | Rejected => console_error ErrorAnalyzingPage w
    end in
  upd (setIsSummarizing false) (upd (setLoading false) w1).

(** *** [getCurrentUrl] *)

Definition getCurrentUrl_begin (w : World) : World := issue TabsQuery w.

Definition getCurrentUrl_resume (o : Outcome) (w : World) : World :=
  match o with
  | Fulfilled u => if JsString.truthy u then upd (setUrl u) w else w
  | Rejected => w
  end.

(** *** [handleTextSelection] *)

(** What the handler reads from the document on a [mouseup]:
    [window.getSelection()?.toString()], the bounding rectangle of the first
    range, and the window's inner size. *)
Record DocumentSnapshot := mkDoc {
  selectionText : option jsstring;
  selectionRect : option Rect;
  innerWidth : float;
  innerHeight : float
}.

Definition popupWidth : float := 300.
Definition popupHeight : float := 150.

(** The anchor published for a selection rectangle.  [a > b] is [b < a]. *)
Definition anchor (rect : Rect) (windowWidth : float) : Point :=
  let x := (rect_left rect + rect_width rect / 2)%float in
  let y := rect_top rect in
  let x :=
    if (x - popupWidth / 2 <? 0)%float then (popupWidth / 2)%float
    else if (windowWidth <? x + popupWidth / 2)%float
         then (windowWidth - popupWidth / 2)%float
    else x in
  let y :=
    if (y - popupHeight <? 0)%float then (rect_bottom rect + 10)%float
    else (rect_top rect - 10)%float in
  {| px := x; py := y |}.

(** [prev => ({ ...prev, visible: false })] *)
Definition hide (prev : SelectionPopupState) : SelectionPopupState :=
  {| position := position prev; text := text prev; visible := false |}.

Definition handleTextSelection (doc : DocumentSnapshot)
    (prev : SelectionPopupState) : SelectionPopupState :=
  let selectedText := JsString.trim <$> selectionText doc in
  match selectedText with
  | Some selectedText =>
      if JsString.truthy selectedText && (0 <? JsString.length selectedText)%nat then
        match selectionRect doc with
        | Some rect =>
            {| position := Some (anchor rect (innerWidth doc));
               text := selectedText;
               visible := true |}
        | None => prev
        end
      else hide prev
  | None => hide prev
  end.

(** *** [handleClickOutside]

    [contains] is [popup?.contains(event.target)]: [None] when no element
    matches [.selection-popup]. *)
Definition handleClickOutside (contains : option bool)
    (prev : SelectionPopupState) : SelectionPopupState :=
  match contains with
  | Some true => prev
  | Some false | None => hide prev
  end.

(** *** [handleQuestionSubmit] *)

Definition handleQuestionSubmit_begin (w : World) : World :=
  if negb (JsString.truthy (JsString.trim (question (app w)))) then w
  else issue (AskQuestion (question (app w)) (searchScope (app w)))
             (upd (setLoading true) w).

Definition handleQuestionSubmit_resume (o : Outcome) (w : World) : World :=
  let w1 :=
    match o with
    | Fulfilled response =>
        scrollToAnswer (upd (setQuestion []) (upd (setAnswer response) w))
    | Rejected => console_error ErrorGettingAnswer w
    end in
  upd (setLoading false) w1.

(** *** [handleSearch] *)

Definition handleSearch (answer : jsstring) (s : AppState) : AppState :=
  setAnswerType (Some Search) (setSearchAnswer answer s).

(** *** [toggleDarkMode] *)

(** [String(b)] *)
Definition String_of_bool (b : bool) : jsstring :=
  if b then js:"true" else js:"false".

Definition toggleDarkMode (w : World) : World :=
  let newDarkMode := negb (darkMode (app w)) in
  classList_dark newDarkMode
    (localStorage_setItem (String_of_bool newDarkMode)
       (upd (setDarkMode newDarkMode) w)).

(** *** The mount effect *)

Definition mount (w : World) : World :=
  let w := summarizeCurrentPage_begin w in
  let w := getCurrentUrl_begin w in
  let w := addEventListeners w in
  let savedDarkMode := bool_decide (storedDarkMode w = Some js:"true") in
  let w := upd (setDarkMode savedDarkMode) w in
  if savedDarkMode then classList_dark true w else w.

(** ** Events and the step function *)

Inductive Event :=
| Mount                                   (* the [useEffect] body runs *)
| SummarizeClick                          (* [Header]'s [onSummarize] *)
| Settle (id : nat) (o : Outcome)         (* an awaited promise settles *)
| MouseUp (doc : DocumentSnapshot)        (* [mouseup] on the document *)
| MouseDown (contains : option bool)      (* [mousedown] on the document *)
| QuestionChange (q : jsstring)           (* [QuestionInput]'s [onChange] *)
| QuestionSubmit                          (* [QuestionInput]'s [onSubmit] *)
| PopupDefine                             (* [onDefine={() => {}}] *)
| PopupExplain                            (* [onExplain={() => {}}] *)
| PopupSearch (answer : jsstring)         (* [onSearch={handleSearch}] *)
| ToggleDarkMode
| FocusClick                              (* [onFocusClick] *)
| FocusClose                              (* [FocusModal]'s [onClose] *)
| ScopeSelect (scope : SearchScope).      (* [FocusModal]'s [onScopeSelect] *)

(** The continuation of the handler that awaits call [c]. *)
Definition resume (c : Call) (o : Outcome) (w : World) : World :=
  match c with
  | AnalyzeCurrentPage => summarizeCurrentPage_resume o w
  | AskQuestion _ _ => handleQuestionSubmit_resume o w
  | TabsQuery => getCurrentUrl_resume o w
  end.

(** One turn of the event loop.  A settlement of a call that is not in
    flight, and a mouse event before the listeners are attached, do not
    reach any handler. *)
Definition step (w : World) (e : Event) : World :=
  match e with
  | Mount => mount w
  | SummarizeClick => summarizeCurrentPage_begin w
  | Settle id o =>
      match inflight w !! id with
      | Some c => resume c o (retire id w)
      | None => w
      end
  | MouseUp doc =>
      if listening w then upd (setSelectionPopup (handleTextSelection doc)) w
      else w
  | MouseDown contains =>
      if listening w then upd (setSelectionPopup (handleClickOutside contains)) w
      else w
  | QuestionChange q => upd (setQuestion q) w
  | QuestionSubmit => handleQuestionSubmit_begin w
  | PopupDefine => w
  | PopupExplain => w
  | PopupSearch answer => upd (handleSearch answer) w
  | ToggleDarkMode => toggleDarkMode w
  | FocusClick => upd (setShowFocusModal true) w
  | FocusClose => upd (setShowFocusModal false) w
  | ScopeSelect scope => upd (setSearchScope scope) w
  end.

Definition run (w : World) (tr : list Event) : World := fold_left step tr w.

(** The worlds the panel can be in: the first render, then any sequence of
    events. *)
Inductive reachable : World -> Prop :=
| reachable_init stored : reachable (initial_world stored)
| reachable_step w e : reachable w -> reachable (step w e).

(** ** View reconciliation *)

Record RenderPlan := mkPlan {
  summaryBlock : option jsstring;        (* [ContentSection "Page Summary"] *)
  answerAnimation : option AnswerType;   (* [AnswerAnimation]'s [type] *)
  answerBlock : option jsstring;         (* [ContentSection "Answer"] *)
  searchBlock : option jsstring          (* [ContentSection "Search Results"] *)
}.

(** [s && <ContentSection content={s} />] *)
Definition block (s : jsstring) : option jsstring :=
  if JsString.truthy s then Some s else None.

(** [loading && answerType && !answer && <AnswerAnimation type={answerType} />] *)
Definition animation (s : AppState) : option AnswerType :=
  if loading s then
    match answerType s with
    | Some type => if negb (JsString.truthy (answer s)) then Some type else None
    | None => None
    end
  else None.

Definition render (s : AppState) : RenderPlan :=
  {| summaryBlock := block (summary s);
     answerAnimation := animation s;
     answerBlock := block (answer s);
     searchBlock := block (searchAnswer s) |}.

(** The loading indicator of kind [K] is on screen. *)
Definition indicator_shown (K : AnswerType) (s : AppState) : bool :=
  bool_decide (answerAnimation (render s) = Some K).

(** ** Derived notions *)

(** The invariant of the popup state. *)
Definition popup_ok (p : SelectionPopupState) : Prop :=
  visible p = true -> is_Some (position p) /\ text p <> [].

(** The trimmed selection is empty: there is no selection object, or its
    text is blank. *)
Definition selection_blank (doc : DocumentSnapshot) : Prop :=
  match selectionText doc with
  | Some t => JsString.trim t = []
  | None => True
  end.

(** The content of the slot a kind of answer belongs to, in the words of
    the data model: search results live in the search slot, definitions and
    elaborations are narrower forms of a direct answer. *)
Definition slot_content (K : AnswerType) (s : AppState) : jsstring :=
  match K with
  | Search => searchAnswer s
  | Define | Elaborate => answer s
  end.

(** The gating condition as property P6 words it: the emptiness test is on
    the content of slot [K] itself. *)
Definition P6_indicator_shown (K : AnswerType) (s : AppState) : bool :=
  loading s && bool_decide (answerType s = Some K)
  && JsString.is_empty (slot_content K s).

(** Event [e], arriving in world [w], is a question's response that is the
    empty string. *)
Definition is_empty_answer (w : World) (e : Event) : bool :=
  match e with
  | Settle id (Fulfilled []) =>
      match inflight w !! id with
      | Some (AskQuestion _ _) => true
      | _ => false
      end
  | _ => false
  end.

(** No question is answered with the empty string along [tr], run from [w]. *)
Fixpoint no_empty_answer (w : World) (tr : list Event) : bool :=
  match tr with
  | [] => true
  | e :: tr' => negb (is_empty_answer w e) && no_empty_answer (step w e) tr'
  end.

(** A binary64 value that is not a zero, with sign [s]. *)
Definition signed_nonzero (s : bool) (x : spec_float) : Prop :=
  match x with
  | S754_finite s' _ _ | S754_infinity s' => s' = s
  | S754_zero _ | S754_nan => False
  end.

Definition is_PopupSearch (e : Event) : bool :=
  match e with PopupSearch _ => true | _ => false end.

(** ** Sample inputs *)

(** A selection of [" hello "] with the rectangle of scenario C, in a
    375 x 667 window. *)
Definition doc_hello : DocumentSnapshot :=
  {| selectionText := Some js:" hello ";
     selectionRect := Some (mkRect 100 5 40 25);
     innerWidth := 375; innerHeight := 667 |}.

(** A selection that holds white space only. *)
Definition doc_blank : DocumentSnapshot :=
  {| selectionText := Some [0x20; 0x09; 0x0A; 0xA0]%N;
     selectionRect := Some (mkRect 100 5 40 25);
     innerWidth := 375; innerHeight := 667 |}.

(** The selection of scenario C in a window 200 pixels wide. *)
Definition doc_narrow : DocumentSnapshot :=
  {| selectionText := Some js:" hello ";
     selectionRect := Some (mkRect 100 5 40 25);
     innerWidth := 200; innerHeight := 667 |}.

Definition popup_hello : SelectionPopupState :=
  handleTextSelection doc_hello initial_popup.

(** The panel after its mount effect, with the selection of scenario C made:
    the popup is visible. *)
Definition world_selected : World :=
  run (initial_world None) [Mount; MouseUp doc_hello].

(** A search was made and a question answered. *)
Definition world_answered : World :=
  run (initial_world None)
      [Mount; Settle 0 (Fulfilled js:"# Hello"); MouseUp doc_hello;
       PopupSearch js:"found";
       QuestionChange js:"What is X?"; QuestionSubmit;
       Settle 2 (Fulfilled js:"X is a thing.")].

(** Then a second question is answered with the empty string and a third
    one submitted. *)
Definition world_empty_answer : World :=
  run world_answered
      [QuestionChange js:"And Y?"; QuestionSubmit; Settle 3 (Fulfilled []);
       QuestionChange js:"And Z?"; QuestionSubmit].

(** A world with a populated answer and summary, and a new question typed. *)
Definition world_populated : World :=
  run (initial_world None)
      [Mount; Settle 0 (Fulfilled js:"# Hello"); Settle 1 (Fulfilled js:"https://example.org/");
       QuestionChange js:"What is X?"; QuestionSubmit;
       Settle 2 (Fulfilled js:"X is a thing.");
       QuestionChange js:"And Y?"].

(** A world with a populated answer, search answer and summary, and both a
    summarize call (3) and a question (4) in flight. *)
Definition world_busy : World :=
  run world_populated [PopupSearch js:"found"; SummarizeClick; QuestionSubmit].

(** The summary has arrived, the user searched for a selection, then
    submitted a question. *)
Definition world_search_then_ask : World :=
  run (initial_world None)
      [Mount; Settle 0 (Fulfilled js:"# Hello"); MouseUp doc_hello;
       PopupSearch js:"found"; QuestionChange js:"What is X?"; QuestionSubmit].

(** ** Further notions: white space, theme, calls in flight *)

(** Every code unit of [s] is white space. *)
Definition all_white_space (s : jsstring) : bool :=
  forallb JsString.is_white_space s.


(** The calls whose settlement ends [loading]. *)
Definition ends_loading (c : Call) : bool :=
  match c with
  | AnalyzeCurrentPage | AskQuestion _ _ => true
  | TabsQuery => false
  end.

(** The flags that announce work in progress are backed by a call that is
    still in flight; call identifiers are fresh. *)
Definition calls_consistent (w : World) : Prop :=
  (forall id c, inflight w !! id = Some c -> (id < nextId w)%nat)
  /\ (isSummarizing (app w) = true ->
      exists id, inflight w !! id = Some AnalyzeCurrentPage)
  /\ (loading (app w) = true ->
      exists id c, inflight w !! id = Some c /\ ends_loading c = true).

(** ** [ContentSection]: the copy button

    The component's own state is [copied]. Around it: the
    [navigator.clipboard.writeText] calls in flight with the text they were
    given, the timers set by [setTimeout(() => setCopied(false), 2000)] that
    have not fired yet, and the [console.error] calls. *)

Module ContentSection.

Record World := mkWorld {
  copied : bool;
  writes : gmap nat jsstring;
  nextWrite : nat;
  timers : nat;
  errors : nat
}.

(** [React.useState(false)] *)
Definition initial_world : World :=
  {| copied := false; writes := ∅; nextWrite := 0; timers := 0; errors := 0 |}.

Inductive Event :=
| CopyClick (content : jsstring)          (* [onClick={handleCopy}], with the [content] prop of that render *)
| WriteSettled (id : nat) (ok : bool)     (* the promise of [writeText] settles *)
| TimerFired.                             (* a 2000 ms timer fires *)

(** [handleCopy] up to its [await]. *)
Definition handleCopy_begin (content : jsstring) (w : World) : World :=
  mkWorld (copied w) (<[nextWrite w := content]> (writes w)) (S (nextWrite w))
          (timers w) (errors w).

(** [handleCopy] after its [await]. *)
Definition handleCopy_resume (id : nat) (ok : bool) (w : World) : World :=
  if ok then
    mkWorld true (delete id (writes w)) (nextWrite w) (S (timers w)) (errors w)
  else
    mkWorld (copied w) (delete id (writes w)) (nextWrite w) (timers w)
            (S (errors w)).

(** [() => setCopied(false)] *)
Definition timer_callback (w : World) : World :=
  mkWorld false (writes w) (nextWrite w) (pred (timers w)) (errors w).

Definition step (w : World) (e : Event) : World :=
  match e with
  | CopyClick content => handleCopy_begin content w
  | WriteSettled id ok =>
      match writes w !! id with
      | Some _ => handleCopy_resume id ok w
      | None => w
      end
  | TimerFired =>
      match timers w with
      | O => w
      | S _ => timer_callback w
      end
  end.

Definition run (w : World) (tr : list Event) : World := fold_left step tr w.

Inductive reachable : World -> Prop :=
| reachable_init : reachable initial_world
| reachable_step w e : reachable w -> reachable (step w e).

(** [title={copied ? "Copied!" : "Copy to clipboard"}] *)
Definition button_title (w : World) : jsstring :=
  if copied w then js:"Copied!" else js:"Copy to clipboard".

End ContentSection.

(** * Properties *)

(** ** Basic facts about strings *)

Lemma truthy_nonempty (s : jsstring) : JsString.truthy s = true <-> s <> [].
Proof. destruct s; simpl; split; congruence. Qed.

Lemma truthy_false_empty (s : jsstring) : JsString.truthy s = false <-> s = [].
Proof. destruct s; simpl; split; congruence. Qed.

Lemma truthy_length (s : jsstring) :
  JsString.truthy s && (0 <? JsString.length s)%nat = JsString.truthy s.
Proof. destruct s; reflexivity. Qed.

(** ** The selection tracker *)

Section Selection.

Variable doc : DocumentSnapshot.
Variable prev : SelectionPopupState.

(** With a non-empty trimmed selection and a rectangle, the handler
    publishes the anchor, the trimmed text and [visible: true]. *)
Lemma handleTextSelection_publish t rect :
  selectionText doc = Some t ->
  JsString.trim t <> [] ->
  selectionRect doc = Some rect ->
  handleTextSelection doc prev =
    {| position := Some (anchor rect (innerWidth doc));
       text := JsString.trim t; visible := true |}.
Proof.
  intros Ht Hne Hr. unfold handleTextSelection. rewrite Ht, Hr. simpl.
  rewrite truthy_length. apply truthy_nonempty in Hne. now rewrite Hne.
Qed.

(** Without a rectangle nothing is published. *)
Lemma handleTextSelection_no_rect t :
  selectionText doc = Some t ->
  JsString.trim t <> [] ->
  selectionRect doc = None ->
  handleTextSelection doc prev = prev.
Proof.
  intros Ht Hne Hr. unfold handleTextSelection. rewrite Ht, Hr. simpl.
  rewrite truthy_length. apply truthy_nonempty in Hne. now rewrite Hne.
Qed.

(** With no selection, or one that is blank, the popup is hidden. *)
Lemma handleTextSelection_blank :
  match selectionText doc with
  | Some t => JsString.trim t = []
  | None => True
  end ->
  handleTextSelection doc prev = hide prev.
Proof.
  unfold handleTextSelection. destruct (selectionText doc) as [t|]; simpl.
  - intros ->. reflexivity.
  - reflexivity.
Qed.

(** Whatever the document holds, the handler's result is one of the three
    above. *)
Lemma handleTextSelection_cases :
  (exists t rect,
      JsString.trim t <> [] /\
      handleTextSelection doc prev =
        {| position := Some (anchor rect (innerWidth doc));
           text := JsString.trim t; visible := true |})
  \/ handleTextSelection doc prev = prev
  \/ handleTextSelection doc prev = hide prev.
Proof.
  destruct (selectionText doc) as [t|] eqn:Ht.
  - destruct (JsString.trim t) as [|c r] eqn:Hne.
    + right; right. apply handleTextSelection_blank. now rewrite Ht.
    + destruct (selectionRect doc) as [rect|] eqn:Hr.
      * left. exists t, rect. rewrite Hne. split; [discriminate|].
        rewrite <- Hne. apply handleTextSelection_publish; auto.
        rewrite Hne; discriminate.
      * right; left. apply handleTextSelection_no_rect with t; auto.
        rewrite Hne; discriminate.
  - right; right. apply handleTextSelection_blank. now rewrite Ht.
Qed.

End Selection.

Lemma popup_ok_hide p : popup_ok (hide p).
Proof. unfold popup_ok; simpl; discriminate. Qed.

Lemma popup_ok_handleTextSelection doc p :
  popup_ok p -> popup_ok (handleTextSelection doc p).
Proof.
  intros Hp.
  destruct (handleTextSelection_cases doc p) as [(t & rect & Hne & ->)|[->| ->]].
  - intros _; simpl. split; [eexists; reflexivity | exact Hne].
  - exact Hp.
  - apply popup_ok_hide.
Qed.

Lemma popup_ok_handleClickOutside c p :
  popup_ok p -> popup_ok (handleClickOutside c p).
Proof.
  intros Hp. destruct c as [[|]|]; simpl; auto using popup_ok_hide.
Qed.

(** ** What one step changes *)

(** Unfold the handler an event dispatches to and split on its branches. *)
Ltac unfold_handlers :=
  unfold step, resume, mount, summarizeCurrentPage_begin,
    summarizeCurrentPage_resume, getCurrentUrl_begin, getCurrentUrl_resume,
    handleQuestionSubmit_begin, handleQuestionSubmit_resume, toggleDarkMode,
    handleSearch in *.

Ltac step_cases := unfold_handlers; repeat case_match; simpl in *; try done.

Lemma step_selectionPopup w e :
  selectionPopup (app (step w e)) =
    match e with
    | MouseUp doc =>
        if listening w then handleTextSelection doc (selectionPopup (app w))
        else selectionPopup (app w)
    | MouseDown c =>
        if listening w then handleClickOutside c (selectionPopup (app w))
        else selectionPopup (app w)
    | _ => selectionPopup (app w)
    end.
Proof. destruct e; step_cases. Qed.

Lemma step_answerType w e :
  answerType (app (step w e)) =
    match e with
    | PopupSearch _ => Some Search
    | _ => answerType (app w)
    end.
Proof. destruct e; step_cases. Qed.

Lemma step_answer w e :
  answer (app (step w e)) =
    match e with
    | Settle id (Fulfilled response) =>
        match inflight w !! id with
        | Some (AskQuestion _ _) => response
        | _ => answer (app w)
        end
    | _ => answer (app w)
    end.
Proof. destruct e; step_cases. Qed.

Lemma step_searchAnswer w e :
  searchAnswer (app (step w e)) =
    match e with
    | PopupSearch a => a
    | _ => searchAnswer (app w)
    end.
Proof. destruct e; step_cases. Qed.

Lemma step_summary w e :
  summary (app (step w e)) =
    match e with
    | Settle id (Fulfilled s) =>
        match inflight w !! id with
        | Some AnalyzeCurrentPage => s
        | _ => summary (app w)
        end
    | _ => summary (app w)
    end.
Proof. destruct e; step_cases. Qed.

Lemma step_isSummarized w e :
  isSummarized (app (step w e)) =
    match e with
    | Settle id (Fulfilled _) =>
        match inflight w !! id with
        | Some AnalyzeCurrentPage => true
        | _ => isSummarized (app w)
        end
    | _ => isSummarized (app w)
    end.
Proof. destruct e; step_cases. Qed.

Lemma run_app (w : World) (tr : list Event) (e : Event) :
  run w (tr ++ [e]) = step (run w tr) e.
Proof. unfold run. now rewrite fold_left_app. Qed.

Lemma run_cons (w : World) (tr : list Event) (e : Event) :
  run w (e :: tr) = run (step w e) tr.
Proof. reflexivity. Qed.

Lemma reachable_run w tr : reachable w -> reachable (run w tr).
Proof.
  revert w. induction tr as [|e tr IH]; intros w Hw; simpl; auto.
  apply IH. now constructor.
Qed.

Lemma reachable_inv w :
  reachable w -> exists stored tr, w = run (initial_world stored) tr.
Proof.
  induction 1 as [stored | w e _ (stored & tr & ->)].
  - now exists stored, [].
  - exists stored, (tr ++ [e]). now rewrite run_app.
Qed.

(** ** The popup state: invariant, dismissal, blank selections *)

Lemma popup_ok_step w e :
  popup_ok (selectionPopup (app w)) -> popup_ok (selectionPopup (app (step w e))).
Proof.
  intros Hp. rewrite step_selectionPopup.
  destruct e; auto; destruct (listening w); auto.
  - now apply popup_ok_handleTextSelection.
  - now apply popup_ok_handleClickOutside.
Qed.

(** C3. In every reachable world (the first render followed by any sequence
    of events, pointer-up and pointer-down among them), a visible popup has
    a position and a non-empty text. *)
Theorem popup_visible_has_position_and_text w :
  reachable w ->
  visible (selectionPopup (app w)) = true ->
  is_Some (position (selectionPopup (app w))) /\ text (selectionPopup (app w)) <> [].
Proof.
  intros Hw. change (popup_ok (selectionPopup (app w))).
  induction Hw as [stored | w e _ IH].
  - simpl. unfold popup_ok; simpl; discriminate.
  - now apply popup_ok_step.
Qed.

Lemma popup_visible_has_position_and_text_witness :
  let w := run (initial_world None) [Mount; MouseUp doc_hello] in
  visible (selectionPopup (app w)) = true /\
  is_Some (position (selectionPopup (app w))) /\
  text (selectionPopup (app w)) = js:"hello".
Proof.
  intros w. split; [reflexivity|].
  destruct (popup_visible_has_position_and_text w) as [Hpos _].
  - apply reachable_run. constructor.
  - reflexivity.
  - split; [exact Hpos | reflexivity].
Defined.

(** C8. Whatever the popup state was, a pointer-press whose target is not
    inside the popup element (the element does not contain it, or there is
    no such element) leaves the stored popup state with [visible = false];
    position and text are kept, and nothing else in the state changes.  The
    handler runs once the mount effect has attached it. *)
Theorem handleClickOutside_hides w contains :
  listening w = true ->
  contains <> Some true ->
  let w' := step w (MouseDown contains) in
  visible (selectionPopup (app w')) = false
  /\ position (selectionPopup (app w')) = position (selectionPopup (app w))
  /\ text (selectionPopup (app w')) = text (selectionPopup (app w))
  /\ app w' = setSelectionPopup hide (app w).
Proof.
  intros Hl Hc. cbv zeta. simpl step. rewrite Hl.
  destruct contains as [[|]|]; [congruence | | ]; now repeat split.
Qed.

Lemma handleClickOutside_hides_witness :
  visible (selectionPopup (app world_selected)) = true
  /\ visible (selectionPopup (app (step world_selected (MouseDown (Some false)))))
     = false
  /\ visible (selectionPopup (app (step world_selected (MouseDown None))))
     = false.
Proof.
  split; [reflexivity|]. split.
  - apply (handleClickOutside_hides world_selected (Some false));
      [reflexivity | discriminate].
  - apply (handleClickOutside_hides world_selected None);
      [reflexivity | discriminate].
Defined.

(** A press inside the popup changes nothing. *)
Lemma handleClickOutside_inside prev : handleClickOutside (Some true) prev = prev.
Proof. reflexivity. Qed.

(** C9. On a pointer-release with an empty trimmed selection the stored
    popup state gets [visible = false] and its position and text keep their
    previous values; nothing else in the state changes.  The handler runs
    once the mount effect has attached it. *)
Theorem blank_selection_hides_and_keeps w doc :
  listening w = true ->
  selection_blank doc ->
  let w' := step w (MouseUp doc) in
  visible (selectionPopup (app w')) = false
  /\ position (selectionPopup (app w')) = position (selectionPopup (app w))
  /\ text (selectionPopup (app w')) = text (selectionPopup (app w))
  /\ app w' = setSelectionPopup hide (app w).
Proof.
  intros Hl Hb. cbv zeta. simpl step. rewrite Hl.
  unfold upd, setSelectionPopup. cbn [app selectionPopup].
  rewrite handleTextSelection_blank by exact Hb. now repeat split.
Qed.

Lemma blank_selection_hides_and_keeps_witness :
  let w' := step world_selected (MouseUp doc_blank) in
  visible (selectionPopup (app world_selected)) = true
  /\ visible (selectionPopup (app w')) = false
  /\ position (selectionPopup (app w')) = position (selectionPopup (app world_selected))
  /\ text (selectionPopup (app w')) = js:"hello".
Proof.
  intros w'. split; [reflexivity|].
  destruct (blank_selection_hides_and_keeps world_selected doc_blank)
    as (Hv & Hp & Ht & _).
  - reflexivity.
  - reflexivity.
  - split; [exact Hv | split; [exact Hp | exact (eq_trans Ht eq_refl)]].
Defined.

(** ** Binary64 arithmetic

    The specification of the primitive operations ([SpecFloat]) is used to
    show that the test the handler makes, [y - popupHeight < 0], is the test
    [y < popupHeight]: a difference of two binary64 values that is not zero
    never rounds to zero. *)

Section Binary64.

Local Open Scope Z_scope.

Lemma digits2_pos_size m : digits2_pos m = Pos.size m.
Proof. induction m; simpl; congruence. Qed.

Lemma digits2_pos_bounds m :
  2 ^ (Zpos (digits2_pos m) - 1) <= Zpos m < 2 ^ Zpos (digits2_pos m).
Proof.
  rewrite digits2_pos_size. split.
  - pose proof (Pos.size_le m) as H.
    apply Pos2Z.pos_le_pos in H. rewrite Pos2Z.inj_pow in H.
    change (Zpos m~0) with (2 * Zpos m) in H.
    replace (Zpos (Pos.size m)) with (Z.succ (Zpos (Pos.size m) - 1)) in H by lia.
    rewrite Z.pow_succ_r in H by lia. lia.
  - pose proof (Pos.size_gt m) as H.
    apply Pos2Z.pos_lt_pos in H. now rewrite Pos2Z.inj_pow in H.
Qed.

Lemma iter_xO m d : Zpos (Pos.iter xO m d) = Zpos m * 2 ^ Zpos d.
Proof.
  induction d as [|d IH] using Pos.peano_ind.
  - cbn [Pos.iter]. rewrite Pos2Z.inj_xO, Z.pow_1_r. lia.
  - rewrite Pos.iter_succ, Pos2Z.inj_xO, IH, Pos2Z.inj_succ, Z.pow_succ_r by lia.
    lia.
Qed.

Lemma shl_align_fst m e e' :
  e' <= e -> Zpos (fst (shl_align m e e')) = Zpos m * 2 ^ (e - e').
Proof.
  intros H. unfold shl_align.
  destruct (e' - e) as [|d|d] eqn:E; try lia.
  - replace (e - e') with 0 by lia. now rewrite Z.pow_0_r, Z.mul_1_r.
  - cbn [fst]. rewrite iter_xO. f_equal. f_equal. lia.
Qed.

Lemma shl_align_snd m e e' : e' <= e -> snd (shl_align m e e') = e'.
Proof.
  intros H. unfold shl_align.
  destruct (e' - e) as [|d|d] eqn:E; simpl; lia.
Qed.

Lemma shr_1_m r : 0 <= shr_m r -> shr_m (shr_1 r) = shr_m r / 2.
Proof.
  destruct r as [m r s]. cbn [shr_m]. intros H.
  destruct m as [|[p|p|]|p]; cbn [shr_1 shr_m]; try lia; try reflexivity.
  - change (Zpos p~1) with (2 * Zpos p + 1). apply Z.div_unique with 1; lia.
  - change (Zpos p~0) with (2 * Zpos p). apply Z.div_unique with 0; lia.
Qed.

Lemma iter_shr_1_m n : forall r,
  0 <= shr_m r -> shr_m (SpecFloat.iter_pos shr_1 n r) = shr_m r / 2 ^ Zpos n.
Proof.
  induction n as [n IH|n IH|]; intros r Hr; cbn [SpecFloat.iter_pos].
  - assert (H1 : 0 <= shr_m (shr_1 r)).
    { rewrite shr_1_m by exact Hr. apply Z.div_pos; lia. }
    assert (H2 : 0 <= shr_m (SpecFloat.iter_pos shr_1 n (shr_1 r))).
    { rewrite IH by exact H1. apply Z.div_pos; lia. }
    rewrite IH, IH, shr_1_m by assumption.
    rewrite !Z.div_div by lia. f_equal.
    rewrite Pos2Z.inj_xI, <- Z.pow_add_r, <- (Z.pow_1_r 2) at 1 by lia.
    rewrite <- Z.pow_add_r by lia. f_equal. lia.
  - assert (H2 : 0 <= shr_m (SpecFloat.iter_pos shr_1 n r)).
    { rewrite IH by exact Hr. apply Z.div_pos; lia. }
    rewrite IH, IH by assumption.
    rewrite Z.div_div by lia. f_equal.
    rewrite Pos2Z.inj_xO, <- Z.pow_add_r by lia. f_equal. lia.
  - rewrite shr_1_m by exact Hr. now rewrite Z.pow_1_r.
Qed.

Lemma shr_record_of_loc_m m l : shr_m (shr_record_of_loc m l) = m.
Proof. destruct l as [|[| |]]; reflexivity. Qed.

(** Rounding a positive mantissa at an exponent not below [emin] never
    gives zero. *)
Lemma shr_fexp_pos m e l :
  (SpecFloat.emin prec emax) <= e ->
  0 < shr_m (fst (shr_fexp prec emax (Zpos m) e l))
  /\ (SpecFloat.emin prec emax) <= snd (shr_fexp prec emax (Zpos m) e l).
Proof.
  intros He. unfold shr_fexp, shr. simpl Zdigits2.
  pose proof (digits2_pos_bounds m) as [Hlo _].
  set (d := Zpos (digits2_pos m)) in *.
  unfold fexp. change (SpecFloat.emin prec emax) with (-1074) in *.
  change prec with 53.
  destruct (Z.max (d + e - 53) (-1074) - e) as [|n|n] eqn:En; simpl;
    rewrite ?shr_record_of_loc_m; try lia.
  rewrite iter_shr_1_m by (rewrite shr_record_of_loc_m; lia).
  rewrite shr_record_of_loc_m. split; [|lia].
  assert (Hn : Zpos n = d - 53) by lia.
  apply Z.div_str_pos. split; [apply Z.pow_pos_nonneg; lia|].
  etransitivity; [|exact Hlo]. apply Z.pow_le_mono_r; lia.
Qed.

Lemma round_nearest_even_pos m l : 0 < m -> 0 < round_nearest_even m l.
Proof.
  intros H. destruct l as [|[| |]]; simpl; try lia.
  destruct (Z.even m); lia.
Qed.

Lemma binary_round_aux_nonzero s m e :
  (SpecFloat.emin prec emax) <= e ->
  signed_nonzero s (binary_round_aux prec emax s (Zpos m) e loc_Exact).
Proof.
  intros He. unfold binary_round_aux.
  destruct (shr_fexp_pos m e loc_Exact He) as [H1 He1].
  destruct (shr_fexp prec emax (Zpos m) e loc_Exact) as [mrs' e']. simpl in H1, He1.
  pose proof (round_nearest_even_pos (shr_m mrs') (loc_of_shr_record mrs') H1) as H2.
  destruct (round_nearest_even (shr_m mrs') (loc_of_shr_record mrs')) as [|m2|m2];
    try lia.
  destruct (shr_fexp_pos m2 e' loc_Exact He1) as [H3 _].
  destruct (shr_fexp prec emax (Zpos m2) e' loc_Exact) as [mrs'' e'']. simpl in H3.
  destruct (shr_m mrs'') as [|m3|m3]; try lia.
  destruct (e'' <=? emax - prec); reflexivity.
Qed.

Lemma binary_round_nonzero s m e :
  (SpecFloat.emin prec emax) <= e -> signed_nonzero s (binary_round prec emax s m e).
Proof.
  intros He. unfold binary_round.
  set (f := fexp prec emax (Zpos (digits2_pos m) + e)).
  assert (Hf : (SpecFloat.emin prec emax) <= f).
  { subst f. unfold fexp. lia. }
  destruct (Z_le_gt_dec f e) as [Hle|Hgt].
  - pose proof (shl_align_snd m e f Hle) as Hs.
    destruct (shl_align m e f) as [mz ez]. simpl in Hs. subst ez.
    now apply binary_round_aux_nonzero.
  - assert (E : shl_align m e f = (m, e)).
    { unfold shl_align. destruct (f - e) eqn:E; try lia; reflexivity. }
    rewrite E. now apply binary_round_aux_nonzero.
Qed.

(** Canonical mantissas. *)
Lemma bounded_inv m e :
  bounded prec emax m e = true ->
  (SpecFloat.emin prec emax) <= e /\ Zpos (digits2_pos m) <= 53
  /\ ((SpecFloat.emin prec emax) < e -> Zpos (digits2_pos m) = 53).
Proof.
  unfold bounded, canonical_mantissa, fexp.
  change (SpecFloat.emin prec emax) with (-1074). change prec with 53.
  intros H. apply andb_prop in H as [H _]. apply Z.eqb_eq in H. lia.
Qed.

(** [t - 150 < 0] and [t < 150] are the same test in binary64. *)
Lemma ltb_sub_150 (t : float) : (t - 150 <? 0)%float = (t <? 150)%float.
Proof.
  rewrite !ltb_spec, sub_spec.
  pose proof (Prim2SF_valid t) as Hv.
  change (Prim2SF 150%float) with (S754_finite false 5277655813324800 (-45)).
  change (Prim2SF 0%float) with (S754_zero false).
  destruct (Prim2SF t) as [s|s| |s m e]; try reflexivity.
  simpl in Hv. destruct (bounded_inv m e Hv) as (He & Hd & Hn).
  pose proof (digits2_pos_bounds m) as [Hlo Hhi].
  unfold SF64sub, SFsub.
  set (ez := Z.min e (-45)).
  pose proof (shl_align_fst m e ez ltac:(lia)) as Hx.
  pose proof (shl_align_fst 5277655813324800 (-45) ez ltac:(lia)) as Hy.
  set (mx := fst (shl_align m e ez)) in *.
  set (my := fst (shl_align 5277655813324800 (-45) ez)) in *.
  assert (Hez : ((SpecFloat.emin prec emax) <= ez)%Z) by (subst ez; change (SpecFloat.emin prec emax) with (-1074)%Z in *; lia).
  destruct s.
  + (* a negative number is below 150, and so is the rounded difference *)
    simpl cond_Zopp.
    replace (- Zpos mx - Zpos my)%Z with (Zneg (mx + my)) by lia.
    simpl binary_normalize.
    pose proof (binary_round_nonzero true (mx + my) ez Hez) as Hr.
    destruct (binary_round prec emax true (mx + my) ez) as [?|s'| |s' ? ?];
      simpl in Hr; try contradiction; subst s'; reflexivity.
  + simpl cond_Zopp.
    assert (Hcmp : SFltb (S754_finite false m e) (S754_finite false 5277655813324800 (-45))
                   = (Zpos mx <? Zpos my)%Z).
    { unfold SFltb, SFcompare.
      change (SpecFloat.emin prec emax) with (-1074)%Z in *.
      destruct (Z.compare_spec e (-45)) as [E|E|E].
      - subst e. replace ez with (-45)%Z in * by (subst ez; lia).
        rewrite Z.sub_diag, Z.mul_1_r in Hx, Hy.
        rewrite Hx, Hy, Pos.compare_cont_spec. unfold Z.ltb. cbn [Z.compare].
        now destruct (m ?= 5277655813324800)%positive.
      - (* a smaller exponent: the number is below 150 *)
        symmetry. apply Z.ltb_lt.
        replace ez with e in * by (subst ez; lia).
        rewrite Z.sub_diag, Z.mul_1_r in Hx. rewrite Hx, Hy.
        assert (Zpos m < 2 ^ 53)%Z.
        { eapply Z.lt_le_trans; [exact Hhi|]. apply Z.pow_le_mono_r; lia. }
        assert (2 ^ 1 <= 2 ^ (-45 - e))%Z by (apply Z.pow_le_mono_r; lia).
        change (2 ^ 53)%Z with 9007199254740992%Z in *.
        change (2 ^ 1)%Z with 2%Z in *. nia.
      - (* a larger exponent: the number is a normal one above 150 *)
        symmetry. apply Z.ltb_ge.
        replace ez with (-45)%Z in * by (subst ez; lia).
        rewrite Z.sub_diag, Z.mul_1_r in Hy. rewrite Hx, Hy.
        assert (Hd53 : Zpos (digits2_pos m) = 53%Z) by (apply Hn; lia).
        rewrite Hd53 in Hlo. change (2 ^ (53 - 1))%Z with 4503599627370496%Z in Hlo.
        assert (2 ^ 1 <= 2 ^ (e - -45))%Z by (apply Z.pow_le_mono_r; lia).
        change (2 ^ 1)%Z with 2%Z in *. nia. }
    rewrite Hcmp.
    destruct (Zpos mx - Zpos my)%Z as [|d|d] eqn:Ed.
    * simpl. symmetry. apply Z.ltb_ge. lia.
    * simpl binary_normalize.
      replace (Zpos mx <? Zpos my)%Z with false by (symmetry; apply Z.ltb_ge; lia).
      unfold binary_round.
      destruct (shl_align d ez _) as [mz ez']. unfold binary_round_aux.
      destruct (shr_fexp prec emax (Zpos mz) ez' loc_Exact) as [r1 e1].
      destruct (shr_fexp prec emax _ e1 loc_Exact) as [r2 e2].
      destruct (shr_m r2); [reflexivity| |reflexivity].
      destruct (e2 <=? emax - prec)%Z; reflexivity.
    * simpl binary_normalize.
      replace (Zpos mx <? Zpos my)%Z with true by (symmetry; apply Z.ltb_lt; lia).
      pose proof (binary_round_nonzero true d ez Hez) as Hr.
      destruct (binary_round prec emax true d ez) as [?|s'| |s' ? ?];
        simpl in Hr; try contradiction; subst s'; reflexivity.
Qed.

End Binary64.

(** ** The anchor *)

Lemma half_popupWidth : (popupWidth / 2)%float = 150%float.
Proof. reflexivity. Qed.

Section Anchor.

Variable rect : Rect.
Variable windowWidth : float.

(** The centre of the selection, before edge avoidance. *)
Let x0 : float := (rect_left rect + rect_width rect / 2)%float.

Lemma anchor_x :
  px (anchor rect windowWidth) =
    if (x0 - 150 <? 0)%float then 150%float
    else if (windowWidth <? x0 + 150)%float then (windowWidth - 150)%float
    else x0.
Proof. reflexivity. Qed.

Lemma anchor_y :
  py (anchor rect windowWidth) =
    if (rect_top rect <? 150)%float then (rect_bottom rect + 10)%float
    else (rect_top rect - 10)%float.
Proof.
  unfold anchor, py, popupHeight. now rewrite ltb_sub_150.
Qed.

End Anchor.

(** The arithmetic is binary64's, roundings included: a centre of
    [225 + 2^-45] is published as the next value above 225, and a centre of
    [150 - 2^-46] rounds to 150, which is not clamped on the left. *)
Example anchor_rounds :
  px (anchor (mkRect 225 5 0x1p-44 25) 375) = 0x1.c200000000001p+7%float
  /\ px (anchor (mkRect (150 - 0x1p-45) 5 0x1p-45 25) 200) = 50%float.
Proof. split; reflexivity. Qed.

(** C4, as worded, fails in a window narrower than the popup: the centre
    [x = 120] satisfies [x + 150 > 200], yet the published [x] is [150], not
    [200 - 150]. *)
Lemma anchor_right_clamp_counterexample :
  let rect := mkRect 100 5 40 25 in
  let x := (rect_left rect + rect_width rect / 2)%float in
  let w' := step (step (initial_world None) Mount) (MouseUp doc_narrow) in
  position (selectionPopup (app w')) = Some (anchor rect 200)
  /\ (200 <? x + 150)%float = true
  /\ px (anchor rect 200) = 150%float
  /\ (px (anchor rect 200) =? 200 - 150)%float = false.
Proof. repeat split. Qed.

(** C4, amended. For a non-empty trimmed selection with rectangle [rect] in
    a window of width [vw], the pointer-release handler stores the trimmed
    text, [visible: true] and the anchor [(x, y)] where, in binary64
    arithmetic and for [x0 = rect.left + rect.width / 2]: [x = 150] when
    [x0 - 150 < 0]; otherwise [x = vw - 150] when [x0 + 150 > vw]; otherwise
    [x = x0]; and [y = rect.bottom + 10] when [rect.top < 150], else
    [y = rect.top - 10]. *)
Theorem published_anchor w doc t rect :
  listening w = true ->
  selectionText doc = Some t ->
  JsString.trim t <> [] ->
  selectionRect doc = Some rect ->
  let x0 := (rect_left rect + rect_width rect / 2)%float in
  let vw := innerWidth doc in
  exists p,
    selectionPopup (app (step w (MouseUp doc))) =
      {| position := Some p; text := JsString.trim t; visible := true |}
    /\ ((x0 - 150 <? 0)%float = true -> px p = 150%float)
    /\ ((x0 - 150 <? 0)%float = false -> (vw <? x0 + 150)%float = true ->
        px p = (vw - 150)%float)
    /\ ((x0 - 150 <? 0)%float = false -> (vw <? x0 + 150)%float = false ->
        px p = x0)
    /\ ((rect_top rect <? 150)%float = true ->
        py p = (rect_bottom rect + 10)%float)
    /\ ((rect_top rect <? 150)%float = false ->
        py p = (rect_top rect - 10)%float).
Proof.
  intros Hl Ht Hne Hr x0 vw. exists (anchor rect vw).
  split.
  { simpl step. rewrite Hl. unfold upd, setSelectionPopup.
    cbn [app selectionPopup].
    now apply handleTextSelection_publish. }
  rewrite anchor_x, anchor_y. fold x0.
  split; [now intros ->|].
  split; [now intros -> ->|].
  split; [now intros -> ->|].
  split; now intros ->.
Qed.

(** Scenario C: [{left:100, width:40, top:5, bottom:25}] in a 375-wide
    window is anchored at [(150, 35)]. *)
Lemma published_anchor_witness :
  exists p,
    selectionPopup (app (step (step (initial_world None) Mount) (MouseUp doc_hello)))
      = {| position := Some p; text := js:"hello"; visible := true |}
    /\ px p = 150%float /\ py p = 35%float.
Proof.
  destruct (published_anchor (step (initial_world None) Mount) doc_hello
              js:" hello " (mkRect 100 5 40 25))
    as (p & Heq & Hleft & _ & _ & Hbelow & _).
  - reflexivity.
  - reflexivity.
  - discriminate.
  - reflexivity.
  - exists p. split; [exact Heq|]. split.
    + apply Hleft. reflexivity.
    + rewrite Hbelow by reflexivity. reflexivity.
Defined.

(** ** The query lifecycle *)

Lemma step_Settle w id o c :
  inflight w !! id = Some c -> step w (Settle id o) = resume c o (retire id w).
Proof. intros H. simpl. now rewrite H. Qed.

Lemma inflight_issue c w : inflight (issue c w) !! nextId w = Some c.
Proof. simpl. apply lookup_insert_eq. Qed.

(** A question that is not blank is sent to [askQuestion] with the current
    scope; the state only changes in [loading]. *)
Lemma step_QuestionSubmit w :
  JsString.trim (question (app w)) <> [] ->
  step w QuestionSubmit =
    issue (AskQuestion (question (app w)) (searchScope (app w)))
          (upd (setLoading true) w).
Proof.
  intros H. simpl. unfold handleQuestionSubmit_begin.
  apply truthy_nonempty in H. now rewrite H.
Qed.

(** A rejected call, whatever happened since it was issued: the error is
    logged once, [loading] ends, and no content changes. *)
Lemma settle_rejected_ask w id q scope :
  inflight w !! id = Some (AskQuestion q scope) ->
  app (step w (Settle id Rejected)) = setLoading false (app w)
  /\ console (step w (Settle id Rejected)) = console w ++ [ErrorGettingAnswer].
Proof. intros H. rewrite (step_Settle _ _ _ _ H). now split. Qed.

Lemma settle_rejected_analyze w id :
  inflight w !! id = Some AnalyzeCurrentPage ->
  app (step w (Settle id Rejected)) =
    setIsSummarizing false (setLoading false (app w))
  /\ console (step w (Settle id Rejected)) = console w ++ [ErrorAnalyzingPage].
Proof. intros H. rewrite (step_Settle _ _ _ _ H). now split. Qed.

(** C5. A submission whose collaborator call fails leaves the slot's
    content unchanged and ends with [loading] false: for a question (which
    must not be blank to be submitted) the state afterwards is the state
    before with [loading] false, and one error is logged; for a summary
    likewise, with [isSummarizing] false too.  No other field of the state
    changes, so nothing carries the failure to the screen.  The same holds
    when other events came between the submission and the failure: whenever
    the rejected call is in flight, its rejection changes no content and
    ends [loading]. *)
Theorem failed_submission_keeps_content w :
  (JsString.trim (question (app w)) <> [] ->
   let w' := run w [QuestionSubmit; Settle (nextId w) Rejected] in
   answer (app w') = answer (app w)
   /\ loading (app w') = false
   /\ app w' = setLoading false (app w)
   /\ console w' = console w ++ [ErrorGettingAnswer])
  /\
  (let w' := run w [SummarizeClick; Settle (nextId w) Rejected] in
   summary (app w') = summary (app w)
   /\ loading (app w') = false
   /\ app w' = setIsSummarizing false (setLoading false (app w))
   /\ console w' = console w ++ [ErrorAnalyzingPage])
  /\
  (forall id c, inflight w !! id = Some c -> c <> TabsQuery ->
   let w' := step w (Settle id Rejected) in
   answer (app w') = answer (app w)
   /\ summary (app w') = summary (app w)
   /\ searchAnswer (app w') = searchAnswer (app w)
   /\ loading (app w') = false).
Proof.
  split; [|split].
  - intros Hq. cbv zeta. rewrite run_cons, step_QuestionSubmit by exact Hq.
    unfold run, fold_left.
    destruct (settle_rejected_ask
                (issue (AskQuestion (question (app w)) (searchScope (app w)))
                       (upd (setLoading true) w))
                (nextId w) _ _ (inflight_issue _ _)) as [Ha Hc].
    simpl nextId in *. rewrite Ha, Hc. now repeat split.
  - cbv zeta. rewrite run_cons. unfold run, fold_left.
    change (step w SummarizeClick) with (summarizeCurrentPage_begin w).
    unfold summarizeCurrentPage_begin.
    destruct (settle_rejected_analyze
                (issue AnalyzeCurrentPage
                       (upd (setLoading true) (upd (setIsSummarizing true) w)))
                (nextId w) (inflight_issue _ _)) as [Ha Hc].
    simpl nextId in *. rewrite Ha, Hc. now repeat split.
  - intros id c Hin Hc. cbv zeta.
    destruct c as [|q scope|]; [| |congruence].
    + destruct (settle_rejected_analyze w id Hin) as [-> _]. now repeat split.
    + destruct (settle_rejected_ask w id q scope Hin) as [-> _]. now repeat split.
Qed.

Lemma failed_submission_keeps_content_witness :
  answer (app world_populated) = js:"X is a thing."
  /\ answer (app (run world_populated [QuestionSubmit; Settle 3 Rejected])) = js:"X is a thing."
  /\ loading (app (run world_populated [QuestionSubmit; Settle 3 Rejected])) = false
  /\ summary (app (run world_populated [SummarizeClick; Settle 3 Rejected])) = js:"# Hello".
Proof.
  split; [reflexivity|].
  destruct (failed_submission_keeps_content world_populated)
    as (Hask & (Hs & _) & _).
  destruct Hask as (Ha & Hl & _); [discriminate|].
  split; [exact (eq_trans Ha eq_refl)|].
  split; [exact Hl | exact (eq_trans Hs eq_refl)].
Defined.

(** C6. Completing a summarize operation, with success or failure, leaves
    [answer] and [searchAnswer] as they were; completing a question
    submission leaves [summary], [isSummarized] and [searchAnswer] as they
    were.  Starting either operation changes none of these fields. *)
Theorem slot_independence w id c o :
  inflight w !! id = Some c ->
  let w' := step w (Settle id o) in
  (c = AnalyzeCurrentPage ->
     answer (app w') = answer (app w)
     /\ searchAnswer (app w') = searchAnswer (app w))
  /\ ((exists q scope, c = AskQuestion q scope) ->
     summary (app w') = summary (app w)
     /\ isSummarized (app w') = isSummarized (app w)
     /\ searchAnswer (app w') = searchAnswer (app w))
  /\ (answer (app (step w SummarizeClick)) = answer (app w)
     /\ searchAnswer (app (step w SummarizeClick)) = searchAnswer (app w))
  /\ (summary (app (step w QuestionSubmit)) = summary (app w)
     /\ isSummarized (app (step w QuestionSubmit)) = isSummarized (app w)
     /\ searchAnswer (app (step w QuestionSubmit)) = searchAnswer (app w)).
Proof.
  intros H w'. subst w'.
  split; [intros ->; split|].
  { rewrite step_answer, H. now destruct o. }
  { now rewrite step_searchAnswer. }
  split; [intros (q & scope & ->); split; [|split]|].
  { rewrite step_summary, H. now destruct o. }
  { rewrite step_isSummarized, H. now destruct o. }
  { now rewrite step_searchAnswer. }
  rewrite !step_answer, !step_searchAnswer, step_summary, step_isSummarized.
  auto.
Qed.

Lemma slot_independence_witness :
  (answer (app world_busy) = js:"X is a thing."
   /\ searchAnswer (app world_busy) = js:"found"
   /\ summary (app world_busy) = js:"# Hello")
  /\ answer (app (step world_busy (Settle 3 (Fulfilled js:"# Bye")))) = js:"X is a thing."
  /\ searchAnswer (app (step world_busy (Settle 3 (Fulfilled js:"# Bye")))) = js:"found"
  /\ summary (app (step world_busy (Settle 4 (Fulfilled js:"Y too.")))) = js:"# Hello".
Proof.
  split; [repeat split|].
  destruct (slot_independence world_busy 3 AnalyzeCurrentPage (Fulfilled js:"# Bye") eq_refl)
    as (Hsum & _).
  destruct (slot_independence world_busy 4 (AskQuestion js:"And Y?" ScopePage)
              (Fulfilled js:"Y too.") eq_refl)
    as (_ & Hask & _).
  destruct (Hsum eq_refl) as [Ha Hs].
  destruct Hask as (Hy & _); [now eexists _, _|].
  split; [exact (eq_trans Ha eq_refl)|].
  split; [exact (eq_trans Hs eq_refl) | exact (eq_trans Hy eq_refl)].
Defined.

(** C7. Submitting a question that is empty after trimming does nothing:
    the world after the step is the world before it, so no call is issued
    ([inflight] and [nextId] are unchanged) and no state field changes. *)
Theorem blank_question_submit_is_noop w :
  JsString.trim (question (app w)) = [] ->
  step w QuestionSubmit = w.
Proof.
  intros H. simpl. unfold handleQuestionSubmit_begin. now rewrite H.
Qed.

Lemma blank_question_submit_is_noop_witness :
  let w := step world_populated (QuestionChange [0x20; 0x0A; 0x3000]%N) in
  step w QuestionSubmit = w /\ inflight (step w QuestionSubmit) = inflight w.
Proof.
  intros w. assert (E : step w QuestionSubmit = w).
  { apply (blank_question_submit_is_noop w). reflexivity. }
  split; [exact E | now rewrite E].
Defined.

(** C2. No fencing: a question response overwrites [answer] whenever it
    arrives.  So when a second question is submitted while the first is in
    flight (both calls are then in flight), the second settles (either way),
    and the first is fulfilled with [r1] after it, the final [answer] is
    [r1]. *)
Theorem last_settled_wins w q2 o2 r1 :
  JsString.trim (question (app w)) <> [] ->
  JsString.trim q2 <> [] ->
  let first := nextId w in
  let second := S (nextId w) in
  let w2 := run w [QuestionSubmit; QuestionChange q2; QuestionSubmit] in
  inflight w2 !! first = Some (AskQuestion (question (app w)) (searchScope (app w)))
  /\ inflight w2 !! second = Some (AskQuestion q2 (searchScope (app w)))
  /\ answer (app (run w2 [Settle second o2; Settle first (Fulfilled r1)])) = r1.
Proof.
  intros Hq Hq2 first second w2.
  assert (E : w2 =
    issue (AskQuestion q2 (searchScope (app w)))
      (upd (setLoading true) (upd (setQuestion q2)
        (issue (AskQuestion (question (app w)) (searchScope (app w)))
           (upd (setLoading true) w))))).
  { subst w2.
    change (run w [QuestionSubmit; QuestionChange q2; QuestionSubmit])
      with (step (step (step w QuestionSubmit) (QuestionChange q2)) QuestionSubmit).
    rewrite (step_QuestionSubmit w Hq).
    set (w1 := issue _ (upd (setLoading true) w)).
    change (step w1 (QuestionChange q2)) with (upd (setQuestion q2) w1).
    rewrite step_QuestionSubmit by exact Hq2. reflexivity. }
  assert (H1 : inflight w2 !! first = Some (AskQuestion (question (app w)) (searchScope (app w)))).
  { rewrite E. simpl. rewrite lookup_insert_ne by (subst first; lia).
    apply lookup_insert_eq. }
  assert (H2 : inflight w2 !! second = Some (AskQuestion q2 (searchScope (app w)))).
  { rewrite E. simpl. apply lookup_insert_eq. }
  split; [exact H1|]. split; [exact H2|].
  rewrite run_cons. unfold run, fold_left.
  rewrite step_answer.
  assert (H1' : inflight (step w2 (Settle second o2)) !! first
                = Some (AskQuestion (question (app w)) (searchScope (app w)))).
  { rewrite (step_Settle _ _ _ _ H2).
    assert (Hr : inflight (retire second w2) !! first = inflight w2 !! first).
    { simpl. apply lookup_delete_ne. subst first second. lia. }
    rewrite <- H1, <- Hr. destruct o2; reflexivity. }
  now rewrite H1'.
Qed.

Lemma last_settled_wins_witness :
  let w2 := run world_populated
              [QuestionSubmit; QuestionChange js:"And Z?"; QuestionSubmit] in
  answer (app (run w2 [Settle 4 (Fulfilled js:"Z is newer.");
                       Settle 3 (Fulfilled js:"Y is older.")]))
  = js:"Y is older.".
Proof.
  destruct (last_settled_wins world_populated js:"And Z?"
              (Fulfilled js:"Z is newer.") js:"Y is older.") as (_ & _ & H).
  - discriminate.
  - discriminate.
  - exact H.
Defined.

(** ** The end-to-end scenarios A and B *)

(** Scenario A: the page analysis returns a summary at startup. *)
Example scenario_A :
  let hello := (js:"# Hello" ++ [0x0A]%N ++ js:"World") in
  let w := run (initial_world None) [Mount; Settle 0 (Fulfilled hello)] in
  inflight (step (initial_world None) Mount) !! 0%nat = Some AnalyzeCurrentPage
  /\ summary (app w) = hello
  /\ isSummarized (app w) = true
  /\ loading (app w) = false
  /\ isSummarizing (app w) = false.
Proof. repeat split. Qed.

(** Scenario B: a question submitted with scope [all]. *)
Example scenario_B :
  let w0 := run (initial_world None)
              [Mount; Settle 0 Rejected; FocusClick; ScopeSelect ScopeAll;
               FocusClose; QuestionChange js:"What is X?"] in
  let w1 := step w0 QuestionSubmit in
  let w2 := step w1 (Settle 2 (Fulfilled js:"X is a thing.")) in
  inflight w1 !! 2%nat = Some (AskQuestion js:"What is X?" ScopeAll)
  /\ loading (app w1) = true
  /\ answer (app w2) = js:"X is a thing."
  /\ question (app w2) = []
  /\ loading (app w2) = false
  /\ scrolls w2 = S (scrolls w0)
  /\ inflight w2 !! 2%nat = None.
Proof. repeat split. Qed.

(** ** The loading indicator *)

(** C1, as worded, fails for the search slot: with the search slot
    populated and a question in flight, the indicator of kind [Search] is on
    screen, although P6's condition is false. *)
Lemma indicator_search_counterexample :
  let s := app world_search_then_ask in
  loading s = true
  /\ answerType s = Some Search
  /\ searchAnswer s = js:"found"
  /\ answer s = []
  /\ indicator_shown Search s = true
  /\ P6_indicator_shown Search s = false.
Proof. repeat split. Qed.

Lemma animation_Some K s :
  animation s = Some K <->
  loading s = true /\ answerType s = Some K /\ answer s = [].
Proof.
  unfold animation. rewrite <- truthy_false_empty.
  destruct (loading s), (answerType s) as [ty|], (JsString.truthy (answer s));
    simpl; split; try (intros (? & ? & ?)); try congruence; auto.
Qed.

Lemma animation_None_answer s : answer s <> [] -> animation s = None.
Proof.
  intros H. apply truthy_nonempty in H. unfold animation. rewrite H. simpl.
  now destruct (loading s), (answerType s).
Qed.

Lemma answer_nonempty_step w e :
  answer (app w) <> [] -> is_empty_answer w e = false ->
  answer (app (step w e)) <> [].
Proof.
  intros Ha He. rewrite step_answer.
  destruct e as [| |id [response|]| | | | | | | | | | |]; auto.
  simpl in He.
  destruct (inflight w !! id) as [[| |]|]; auto.
  destruct response; [discriminate | discriminate].
Qed.

Lemma answer_nonempty_run w tr :
  answer (app w) <> [] -> no_empty_answer w tr = true ->
  answer (app (run w tr)) <> [].
Proof.
  revert w. induction tr as [|e tr IH]; intros w Ha Htr; [exact Ha|].
  simpl in Htr. apply andb_prop in Htr as [He Htr].
  rewrite run_cons. apply IH; [|exact Htr].
  apply answer_nonempty_step; [exact Ha | now apply negb_true_iff].
Qed.

(** The proviso of the amended claim is needed: after a question is
    answered with the empty string, [answer] is empty again, and the next
    submission brings the indicator back although an answer had been
    shown. *)
Lemma indicator_reappears_after_empty_answer :
  answer (app world_answered) = js:"X is a thing."
  /\ answerAnimation (render (app world_answered)) = None
  /\ answer (app world_empty_answer) = []
  /\ loading (app world_empty_answer) = true
  /\ answerAnimation (render (app world_empty_answer)) = Some Search.
Proof.
  split; [vm_compute; reflexivity|]. split; [vm_compute; reflexivity|].
  split; [vm_compute; reflexivity|]. split; vm_compute; reflexivity.
Qed.

(** C1, amended. The loading indicator of kind [K] is shown iff [loading]
    is true, [answerType] is [K] and [answer] is empty: for every kind, the
    search kind too, the emptiness test is on the direct answer.  Once
    [answer] is non-empty no indicator is shown, whatever [loading] becomes,
    for as long as no question is answered with the empty string. *)
Theorem indicator_gating (w : World) (K : AnswerType) (tr : list Event) :
  (indicator_shown K (app w) = true <->
     loading (app w) = true /\ answerType (app w) = Some K /\ answer (app w) = [])
  /\ (answer (app w) <> [] ->
      no_empty_answer w tr = true ->
      answerAnimation (render (app (run w tr))) = None
      /\ indicator_shown K (app (run w tr)) = false).
Proof.
  split.
  - unfold indicator_shown. rewrite bool_decide_eq_true. simpl.
    apply animation_Some.
  - intros Ha Htr.
    assert (H : animation (app (run w tr)) = None).
    { apply animation_None_answer. now apply answer_nonempty_run. }
    split; [exact H|]. unfold indicator_shown. simpl. rewrite H.
    now apply bool_decide_eq_false.
Qed.

(** From a world with an answer on screen: a new question is submitted, a
    search is made, the tab query yields no address, the summary comes back
    empty; [loading] is true again and no indicator is shown. *)
Lemma indicator_gating_witness :
  let tr := [QuestionSubmit; PopupSearch js:"found"; Mount;
             Settle 5 (Fulfilled []); Settle 4 (Fulfilled []); QuestionSubmit] in
  answer (app world_populated) <> []
  /\ loading (app (run world_populated tr)) = true
  /\ indicator_shown Search (app (run world_populated tr)) = false.
Proof.
  intros tr. split; [discriminate|]. split; [reflexivity|].
  apply (indicator_gating world_populated Search tr).
  - discriminate.
  - reflexivity.
Defined.

(** ** [answerType] *)

Lemma answerType_step_other w e :
  is_PopupSearch e = false -> answerType (app (step w e)) = answerType (app w).
Proof. intros H. rewrite step_answerType. now destruct e. Qed.

Lemma answerType_run_inv w tr :
  answerType (app w) = None \/ answerType (app w) = Some Search ->
  answerType (app (run w tr)) = None \/ answerType (app (run w tr)) = Some Search.
Proof.
  revert w. induction tr as [|e tr IH]; intros w H; [exact H|].
  rewrite run_cons. apply IH. rewrite step_answerType. destruct e; auto.
Qed.

Lemma answerType_run_no_search w tr :
  forallb (fun e => negb (is_PopupSearch e)) tr = true ->
  answerType (app (run w tr)) = answerType (app w).
Proof.
  revert w. induction tr as [|e tr IH]; intros w H; [reflexivity|].
  simpl in H. apply andb_prop in H as [He Htr].
  rewrite run_cons, IH by exact Htr. apply answerType_step_other.
  now apply negb_true_iff.
Qed.

(** C10. After any sequence of events from the first render, [answerType]
    is [null] or ['search']: an event other than the popup's search action
    (a question submission, its settlement, the define and explain actions
    among them) leaves it as it was, and the search action sets it to
    ['search'].  Hence, as long as no search action has occurred,
    [answerType] is [null] and no loading indicator is shown. *)
Theorem answerType_null_or_search stored tr :
  let s := app (run (initial_world stored) tr) in
  (answerType s = None \/ answerType s = Some Search)
  /\ (forall w e, is_PopupSearch e = false ->
        answerType (app (step w e)) = answerType (app w))
  /\ (forall w a, answerType (app (step w (PopupSearch a))) = Some Search)
  /\ (forallb (fun e => negb (is_PopupSearch e)) tr = true ->
      answerType s = None /\ answerAnimation (render s) = None).
Proof.
  intros s. subst s. split; [|split; [|split]].
  - apply answerType_run_inv. now left.
  - apply answerType_step_other.
  - intros w a. now rewrite step_answerType.
  - intros H. pose proof (answerType_run_no_search (initial_world stored) tr H) as E.
    simpl in E. split; [exact E|]. simpl. unfold animation. rewrite E.
    now destruct (loading _).
Qed.

Lemma answerType_null_or_search_witness :
  let s := app (run (initial_world None)
                  [Mount; QuestionChange js:"What is X?"; QuestionSubmit;
                   PopupDefine; PopupExplain]) in
  loading s = true /\ answer s = [] /\ answerType s = None
  /\ answerAnimation (render s) = None.
Proof.
  intros s. split; [reflexivity|]. split; [reflexivity|].
  apply (answerType_null_or_search None
           [Mount; QuestionChange js:"What is X?"; QuestionSubmit;
            PopupDefine; PopupExplain]).
  reflexivity.
Defined.

(** * Further properties of the code *)

(** ** [trim] *)

Lemma trimStart_empty_iff (s : jsstring) :
  JsString.trimStart s = [] <-> all_white_space s = true.
Proof.
  induction s as [|c s IH]; simpl; [tauto|].
  destruct (JsString.is_white_space c); simpl; [exact IH|].
  split; discriminate.
Qed.

Lemma trimStart_head (s : jsstring) c r :
  JsString.trimStart s = c :: r -> JsString.is_white_space c = false.
Proof.
  induction s as [|d s IH]; simpl; [discriminate|].
  destruct (JsString.is_white_space d) eqn:Hd; [exact IH|].
  intros [= <- _]. exact Hd.
Qed.

Lemma trimStart_snoc (l : jsstring) c :
  JsString.is_white_space c = false ->
  JsString.trimStart (l ++ [c]) = JsString.trimStart l ++ [c].
Proof.
  intros Hc. induction l as [|d l IH]; simpl.
  - now rewrite Hc.
  - destruct (JsString.is_white_space d); [exact IH | reflexivity].
Qed.

Lemma trimEnd_cons (c : N) (r : jsstring) :
  JsString.is_white_space c = false ->
  JsString.trimEnd (c :: r) = c :: JsString.trimEnd r.
Proof.
  intros Hc. unfold JsString.trimEnd. simpl rev.
  rewrite trimStart_snoc by exact Hc. now rewrite rev_app_distr.
Qed.

Lemma trimStart_idempotent (s : jsstring) :
  JsString.trimStart (JsString.trimStart s) = JsString.trimStart s.
Proof.
  induction s as [|c s IH]; simpl; [reflexivity|].
  destruct (JsString.is_white_space c) eqn:Hc; [exact IH|].
  simpl. now rewrite Hc.
Qed.

Lemma trimEnd_idempotent (s : jsstring) :
  JsString.trimEnd (JsString.trimEnd s) = JsString.trimEnd s.
Proof.
  unfold JsString.trimEnd. now rewrite rev_involutive, trimStart_idempotent.
Qed.

Lemma trim_idempotent (s : jsstring) :
  JsString.trim (JsString.trim s) = JsString.trim s.
Proof.
  unfold JsString.trim.
  destruct (JsString.trimStart s) as [|c r] eqn:E; [reflexivity|].
  pose proof (trimStart_head _ _ _ E) as Hc.
  rewrite (trimEnd_cons c r Hc). simpl JsString.trimStart. rewrite Hc.
  rewrite <- (trimEnd_cons c r Hc). apply trimEnd_idempotent.
Qed.

Lemma trim_empty_iff (s : jsstring) :
  JsString.trim s = [] <-> all_white_space s = true.
Proof.
  rewrite <- trimStart_empty_iff. unfold JsString.trim.
  destruct (JsString.trimStart s) as [|c r] eqn:E; [tauto|].
  rewrite (trimEnd_cons c r (trimStart_head _ _ _ E)). split; discriminate.
Qed.

(** The ends of a trimmed string are not white space. *)
Lemma trim_ends (s : jsstring) c r :
  JsString.trim s = c :: r ->
  JsString.is_white_space c = false
  /\ JsString.is_white_space (List.last r c) = false.
Proof.
  intros H. split.
  - unfold JsString.trim in H.
    destruct (JsString.trimStart s) as [|d r'] eqn:E; [discriminate|].
    pose proof (trimStart_head _ _ _ E) as Hd.
    rewrite (trimEnd_cons d r' Hd) in H. now injection H as <- _.
  - unfold JsString.trim, JsString.trimEnd in H.
    destruct (JsString.trimStart (rev (JsString.trimStart s))) as [|d r'] eqn:E;
      [discriminate|].
    pose proof (trimStart_head _ _ _ E) as Hd.
    simpl in H.
    assert (Hl : List.last (c :: r) c = d).
    { rewrite <- H. apply last_last. }
    destruct r as [|x r]; simpl in Hl |- *; [now subst|].
    now rewrite Hl.
Qed.

(** ** Submitting a question *)

(** X1. A submission reaches [askQuestion] exactly when the input holds a
    code unit that is not white space: with a blank input the world is left
    as it was; otherwise one call goes in flight, carrying the input as
    typed (not trimmed) and the scope of that moment, and [loading] is set. *)
Theorem question_sent_iff_not_blank w :
  (step w QuestionSubmit = w <-> all_white_space (question (app w)) = true)
  /\ (all_white_space (question (app w)) = false ->
      inflight (step w QuestionSubmit) !! nextId w
        = Some (AskQuestion (question (app w)) (searchScope (app w)))
      /\ nextId (step w QuestionSubmit) = S (nextId w)
      /\ app (step w QuestionSubmit) = setLoading true (app w)).
Proof.
  split.
  - rewrite <- trim_empty_iff. split.
    + intros E. destruct (JsString.trim (question (app w))) eqn:Ht; [reflexivity|].
      rewrite step_QuestionSubmit in E by (rewrite Ht; discriminate).
      apply (f_equal nextId) in E. simpl in E. lia.
    + intros H. simpl. unfold handleQuestionSubmit_begin. now rewrite H.
  - intros H. rewrite step_QuestionSubmit.
    + split; [simpl; apply lookup_insert_eq | now split].
    + rewrite trim_empty_iff, H. discriminate.
Qed.

Lemma question_sent_iff_not_blank_witness :
  let w := step world_populated (QuestionChange js:"  And Y? ") in
  inflight (step w QuestionSubmit) !! 3%nat
    = Some (AskQuestion js:"  And Y? " ScopePage)
  /\ loading (app (step w QuestionSubmit)) = true.
Proof.
  intros w.
  destruct (proj2 (question_sent_iff_not_blank w)) as (Hc & _ & Ha).
  - reflexivity.
  - split; [exact Hc | now rewrite Ha].
Defined.

(** X2. A successful answer empties the input whatever it holds by then:
    text typed while the question was in flight is discarded with it.  A
    failed one leaves the input alone. *)
Theorem answer_clears_later_input w id q scope typed r :
  inflight w !! id = Some (AskQuestion q scope) ->
  question (app (run w [QuestionChange typed; Settle id (Fulfilled r)])) = []
  /\ answer (app (run w [QuestionChange typed; Settle id (Fulfilled r)])) = r
  /\ question (app (run w [QuestionChange typed; Settle id Rejected])) = typed.
Proof.
  intros H.
  assert (H' : inflight (step w (QuestionChange typed)) !! id
               = Some (AskQuestion q scope)) by exact H.
  unfold run, fold_left.
  rewrite !(step_Settle _ _ _ _ H'). now repeat split.
Qed.

Lemma answer_clears_later_input_witness :
  let w := step world_populated QuestionSubmit in
  question (app (run w [QuestionChange js:"next question";
                        Settle 3 (Fulfilled js:"Y too.")])) = [].
Proof.
  intros w.
  apply (answer_clears_later_input w 3 js:"And Y?" ScopePage
           js:"next question" js:"Y too.").
  reflexivity.
Defined.

(** X3. The scope travels with the call: selecting another scope while a
    question is in flight does not change that call, and the next
    submission carries the new scope. *)
Theorem scope_applies_to_next_submission w scope' :
  all_white_space (question (app w)) = false ->
  let first := nextId w in
  let w' := run w [QuestionSubmit; ScopeSelect scope'; QuestionSubmit] in
  inflight w' !! first
    = Some (AskQuestion (question (app w)) (searchScope (app w)))
  /\ inflight w' !! S first = Some (AskQuestion (question (app w)) scope').
Proof.
  intros H first w'. subst first w'.
  assert (Hq : JsString.trim (question (app w)) <> []).
  { rewrite trim_empty_iff, H. discriminate. }
  change (run w [QuestionSubmit; ScopeSelect scope'; QuestionSubmit])
    with (step (step (step w QuestionSubmit) (ScopeSelect scope')) QuestionSubmit).
  rewrite (step_QuestionSubmit w Hq).
  set (w1 := issue _ (upd (setLoading true) w)).
  change (step w1 (ScopeSelect scope')) with (upd (setSearchScope scope') w1).
  rewrite step_QuestionSubmit by exact Hq. simpl. split.
  - rewrite lookup_insert_ne by lia. apply lookup_insert_eq.
  - apply lookup_insert_eq.
Qed.

Lemma scope_applies_to_next_submission_witness :
  let w' := run world_populated
              [QuestionSubmit; ScopeSelect ScopeDomain; QuestionSubmit] in
  inflight w' !! 3%nat = Some (AskQuestion js:"And Y?" ScopePage)
  /\ inflight w' !! 4%nat = Some (AskQuestion js:"And Y?" ScopeDomain).
Proof.
  intros w'.
  apply (scope_applies_to_next_submission world_populated ScopeDomain).
  reflexivity.
Defined.

(** ** Scrolling to the answer *)

Lemma step_scrolls w e :
  scrolls (step w e) =
    match e with
    | Settle id (Fulfilled _) =>
        match inflight w !! id with
        | Some (AskQuestion _ _) => S (scrolls w)
        | _ => scrolls w
        end
    | _ => scrolls w
    end.
Proof. destruct e; step_cases. Qed.

Lemma scrolls_run_mono w tr : (scrolls w <= scrolls (run w tr))%nat.
Proof.
  revert w. induction tr as [|e tr IH]; intros w; simpl; [lia|].
  etransitivity; [|apply IH]. rewrite step_scrolls. repeat case_match; lia.
Qed.

(** X4. Whenever an answer is on screen, a scroll to the answer region has
    been scheduled: every response that sets [answer] schedules one, a
    failed question schedules none, and no event takes one back. *)
Theorem answer_shown_was_scrolled_to w :
  reachable w ->
  answer (app w) <> [] ->
  (0 < scrolls w)%nat.
Proof.
  induction 1 as [stored | w e _ IH]; simpl; [congruence|].
  rewrite step_answer, step_scrolls.
  destruct e as [| |id [response|]| | | | | | | | | | |]; auto.
  destruct (inflight w !! id) as [[| |]|]; auto. lia.
Qed.

Lemma answer_shown_was_scrolled_to_witness : (0 < scrolls world_populated)%nat.
Proof.
  apply (answer_shown_was_scrolled_to world_populated).
  - apply reachable_run. constructor.
  - discriminate.
Defined.

(** ** Summarizing *)

(** X5. A summarize operation that succeeds with [s], started from any
    state: the state afterwards is the state before with [summary = s],
    [isSummarized] true, and [loading] and [isSummarizing] false.  With an
    empty [s] the page counts as summarized although no summary block is
    rendered. *)
Theorem summarize_success w s :
  let w' := run w [SummarizeClick; Settle (nextId w) (Fulfilled s)] in
  app w' = setIsSummarizing false (setLoading false
             (setIsSummarized true (setSummary s (app w))))
  /\ summaryBlock (render (app w')) = (if JsString.truthy s then Some s else None)
  /\ isSummarized (app w') = true
  /\ console w' = console w.
Proof.
  cbv zeta. rewrite run_cons. unfold run, fold_left.
  change (step w SummarizeClick) with (summarizeCurrentPage_begin w).
  unfold summarizeCurrentPage_begin.
  rewrite (step_Settle _ (nextId w) _ AnalyzeCurrentPage)
    by (simpl; apply lookup_insert_eq).
  now repeat split.
Qed.

Lemma isSummarized_step w e :
  isSummarized (app w) = true -> isSummarized (app (step w e)) = true.
Proof.
  intros H. rewrite step_isSummarized. now repeat case_match.
Qed.

(** X6. [isSummarized] is never taken back, and a summary is only ever
    stored together with it: in every reachable world a non-empty [summary]
    (a rendered summary block) implies [isSummarized], and from any world
    on, once [isSummarized] holds it holds after every further event. *)
Theorem summary_implies_isSummarized w tr :
  reachable w ->
  (summary (app w) <> [] -> isSummarized (app w) = true)
  /\ (isSummarized (app w) = true -> isSummarized (app (run w tr)) = true).
Proof.
  intros Hw. split.
  - induction Hw as [stored | w e _ IH]; simpl; [congruence|].
    rewrite step_summary, step_isSummarized.
    destruct e as [| |id [response|]| | | | | | | | | | |]; auto.
    destruct (inflight w !! id) as [[| |]|]; auto.
  - clear Hw. revert w. induction tr as [|e tr IH]; intros w H; [exact H|].
    rewrite run_cons. apply IH. now apply isSummarized_step.
Qed.

Lemma summary_implies_isSummarized_witness :
  isSummarized (app world_populated) = true
  /\ isSummarized (app (run world_populated [SummarizeClick; Settle 3 Rejected])) = true.
Proof.
  destruct (summary_implies_isSummarized world_populated
              [SummarizeClick; Settle 3 Rejected]) as [H1 H2].
  - apply reachable_run. constructor.
  - assert (H : isSummarized (app world_populated) = true)
      by (apply H1; discriminate).
    split; [exact H | exact (H2 H)].
Defined.

(** ** The flags and the calls in flight *)

Lemma calls_consistent_same w w' :
  inflight w' = inflight w -> nextId w' = nextId w ->
  isSummarizing (app w') = isSummarizing (app w) ->
  loading (app w') = loading (app w) ->
  calls_consistent w -> calls_consistent w'.
Proof.
  unfold calls_consistent. intros -> -> -> ->. auto.
Qed.

Lemma calls_consistent_issue c w0 w :
  inflight w0 = inflight w -> nextId w0 = nextId w ->
  (isSummarizing (app w0) = true ->
   isSummarizing (app w) = true \/ c = AnalyzeCurrentPage) ->
  (loading (app w0) = true ->
   loading (app w) = true \/ ends_loading c = true) ->
  calls_consistent w -> calls_consistent (issue c w0).
Proof.
  intros Ei En Hs Hl (Hfresh & Hsum & Hload). unfold calls_consistent. simpl.
  rewrite Ei, En. split; [|split].
  - intros id c' H. destruct (decide (nextId w = id)) as [<-|Hne]; [lia|].
    rewrite lookup_insert_ne in H by exact Hne. apply Hfresh in H. lia.
  - intros H. destruct (Hs H) as [H'| ->].
    + destruct (Hsum H') as [id Hid]. exists id.
      rewrite lookup_insert_ne; [exact Hid|]. apply Hfresh in Hid. lia.
    + exists (nextId w). apply lookup_insert_eq.
  - intros H. destruct (Hl H) as [H'|Hc].
    + destruct (Hload H') as (id & c' & Hid & Hc'). exists id, c'.
      split; [|exact Hc']. rewrite lookup_insert_ne; [exact Hid|].
      apply Hfresh in Hid. lia.
    + exists (nextId w), c. split; [apply lookup_insert_eq | exact Hc].
Qed.

Lemma calls_consistent_settle w id c o :
  inflight w !! id = Some c ->
  calls_consistent w -> calls_consistent (resume c o (retire id w)).
Proof.
  intros Hin (Hfresh & Hsum & Hload).
  assert (Hf : forall id' c', delete id (inflight w) !! id' = Some c' ->
                              (id' < nextId w)%nat).
  { intros id' c' H. apply lookup_delete_Some in H as [_ H]. eauto. }
  destruct c as [|q scope|]; simpl.
  - (* the summary call: both flags end *)
    destruct o; (split; [exact Hf | split; simpl; discriminate]).
  - (* a question: [loading] ends, a summary call stays in flight *)
    assert (Hs : isSummarizing (app w) = true ->
                 exists id', delete id (inflight w) !! id' = Some AnalyzeCurrentPage).
    { intros H. destruct (Hsum H) as [id' Hid']. exists id'.
      rewrite lookup_delete_ne; [exact Hid' | congruence]. }
    destruct o; (split; [exact Hf | split; [exact Hs | simpl; discriminate]]).
  - (* the tab query: neither flag changes *)
    assert (Hs : isSummarizing (app w) = true ->
                 exists id', delete id (inflight w) !! id' = Some AnalyzeCurrentPage).
    { intros H. destruct (Hsum H) as [id' Hid']. exists id'.
      rewrite lookup_delete_ne; [exact Hid' | congruence]. }
    assert (Hl : loading (app w) = true ->
                 exists id' c', delete id (inflight w) !! id' = Some c'
                                /\ ends_loading c' = true).
    { intros H. destruct (Hload H) as (id' & c' & Hid' & Hc'). exists id', c'.
      split; [|exact Hc']. rewrite lookup_delete_ne; [exact Hid'|].
      intros <-. rewrite Hin in Hid'. injection Hid' as <-. discriminate. }
    unfold getCurrentUrl_resume.
    destruct o as [u|]; [destruct (JsString.truthy u)|];
      (split; [exact Hf | split; [exact Hs | exact Hl]]).
Qed.

Lemma calls_consistent_step w e :
  calls_consistent w -> calls_consistent (step w e).
Proof.
  intros Hw. destruct e; simpl;
    try (apply (calls_consistent_same w); [reflexivity..|exact Hw]).
  - (* Mount *)
    unfold mount.
    set (w1 := getCurrentUrl_begin (summarizeCurrentPage_begin w)).
    assert (H1 : calls_consistent w1).
    { subst w1. unfold getCurrentUrl_begin, summarizeCurrentPage_begin.
      match goal with
      | |- calls_consistent (issue _ ?x) =>
          apply (calls_consistent_issue TabsQuery x x);
            [reflexivity | reflexivity | auto | auto |]
      end.
      apply (calls_consistent_issue AnalyzeCurrentPage _ w);
        [reflexivity | reflexivity | auto | auto | exact Hw]. }
    destruct (bool_decide _);
      (apply (calls_consistent_same w1); [reflexivity..|exact H1]).
  - (* SummarizeClick *)
    apply (calls_consistent_issue AnalyzeCurrentPage _ w);
      [reflexivity | reflexivity | auto | auto | exact Hw].
  - (* Settle *)
    destruct (inflight w !! id) as [c|] eqn:Hin; [|exact Hw].
    now apply calls_consistent_settle.
  - (* MouseUp *)
    destruct (listening w); [|exact Hw].
    apply (calls_consistent_same w); [reflexivity..|exact Hw].
  - (* MouseDown *)
    destruct (listening w); [|exact Hw].
    apply (calls_consistent_same w); [reflexivity..|exact Hw].
  - (* QuestionSubmit *)
    unfold handleQuestionSubmit_begin.
    destruct (negb _); [exact Hw|].
    apply (calls_consistent_issue (AskQuestion _ _) _ w);
      [reflexivity | reflexivity | auto | auto | exact Hw].
Qed.

(** X7. The flags that announce work in progress are never left on by
    themselves: in every reachable world, [loading] true means a summary or
    question call is still in flight, and [isSummarizing] true means a
    summary call is; whichever way that call settles, it ends the flag. *)
Theorem busy_flags_have_a_call_in_flight w :
  reachable w ->
  (loading (app w) = true ->
   exists id c, inflight w !! id = Some c /\ ends_loading c = true
                /\ forall o, loading (app (step w (Settle id o))) = false)
  /\ (isSummarizing (app w) = true ->
      exists id, inflight w !! id = Some AnalyzeCurrentPage
                 /\ forall o, isSummarizing (app (step w (Settle id o))) = false).
Proof.
  intros Hw.
  assert (Hc : calls_consistent w).
  { induction Hw as [stored | w e _ IH].
    - split; [intros id c H; simpl in H; now rewrite lookup_empty in H|].
      split; simpl; discriminate.
    - now apply calls_consistent_step. }
  destruct Hc as (_ & Hsum & Hload). split.
  - intros H. destruct (Hload H) as (id & c & Hid & Hc). exists id, c.
    split; [exact Hid|]. split; [exact Hc|].
    intros o. rewrite (step_Settle _ _ _ _ Hid).
    destruct c, o; try discriminate; reflexivity.
  - intros H. destruct (Hsum H) as (id & Hid). exists id.
    split; [exact Hid|]. intros o. rewrite (step_Settle _ _ _ _ Hid).
    destruct o; reflexivity.
Qed.

Lemma busy_flags_have_a_call_in_flight_witness :
  loading (app world_busy) = true
  /\ exists id c, inflight world_busy !! id = Some c /\ ends_loading c = true.
Proof.
  split; [reflexivity|].
  destruct (busy_flags_have_a_call_in_flight world_busy) as [H _].
  - apply reachable_run. apply reachable_run. constructor.
  - destruct (H eq_refl) as (id & c & Hid & Hc & _).
    exists id, c. split; [exact Hid | exact Hc].
Defined.

(** X8. The converse fails by construction: there is one [loading] flag
    for all calls, so the first of two calls to settle ends [loading] while
    the other is still in flight. *)
Theorem loading_ends_with_first_settlement w id1 id2 c1 c2 o :
  id1 <> id2 ->
  inflight w !! id1 = Some c1 -> ends_loading c1 = true ->
  inflight w !! id2 = Some c2 ->
  loading (app (step w (Settle id1 o))) = false
  /\ inflight (step w (Settle id1 o)) !! id2 = Some c2.
Proof.
  intros Hne H1 Hc1 H2. rewrite (step_Settle _ _ _ _ H1).
  assert (Hr : inflight (retire id1 w) !! id2 = Some c2).
  { simpl. now rewrite lookup_delete_ne. }
  destruct c1, o; try discriminate; now split.
Qed.

Lemma loading_ends_with_first_settlement_witness :
  loading (app world_busy) = true
  /\ loading (app (step world_busy (Settle 3 (Fulfilled js:"# Bye")))) = false
  /\ inflight (step world_busy (Settle 3 (Fulfilled js:"# Bye"))) !! 4%nat
     = Some (AskQuestion js:"And Y?" ScopePage).
Proof.
  split; [reflexivity|].
  apply (loading_ends_with_first_settlement world_busy 3 4 AnalyzeCurrentPage
           (AskQuestion js:"And Y?" ScopePage) (Fulfilled js:"# Bye")).
  - discriminate.
  - reflexivity.
  - reflexivity.
  - reflexivity.
Defined.

(** ** The theme *)

Lemma String_of_bool_true (b : bool) :
  bool_decide (Some (String_of_bool b) = Some js:"true") = b.
Proof. destruct b; reflexivity. Qed.

(** X9. The preference round trip: what [toggleDarkMode] stores is what the
    mount effect of the next panel reads back, into [darkMode] and into the
    [dark] class of its document.  Any other stored value, a missing key
    too, starts the panel light. *)
Theorem theme_round_trip w stored :
  (let next := mount (initial_world (storedDarkMode (toggleDarkMode w))) in
   darkMode (app next) = negb (darkMode (app w))
   /\ htmlDark next = negb (darkMode (app w)))
  /\ (darkMode (app (mount (initial_world stored))) = true
      <-> stored = Some js:"true")
  /\ darkMode (app (toggleDarkMode (toggleDarkMode w))) = darkMode (app w).
Proof.
  split; [|split].
  - cbv zeta. unfold mount. simpl storedDarkMode.
    rewrite String_of_bool_true. now destruct (negb (darkMode (app w))).
  - unfold mount. simpl storedDarkMode.
    destruct (bool_decide (stored = Some js:"true")) eqn:E; simpl.
    + apply bool_decide_eq_true in E. tauto.
    + apply bool_decide_eq_false in E. split; [discriminate | contradiction].
  - simpl. apply negb_involutive.
Qed.





(** ** The tab's address *)




(** ** More on the selection popup *)

Lemma hide_hide p : hide (hide p) = hide p.
Proof. reflexivity. Qed.

(** X12. The text kept in the popup state is always trimmed: in every
    reachable world it is empty or neither starts nor ends with white
    space, so trimming it again changes nothing. *)
Theorem popup_text_is_trimmed w :
  reachable w ->
  JsString.trim (text (selectionPopup (app w))) = text (selectionPopup (app w))
  /\ (forall c r, text (selectionPopup (app w)) = c :: r ->
        JsString.is_white_space c = false
        /\ JsString.is_white_space (List.last r c) = false).
Proof.
  intros Hw.
  assert (H : JsString.trim (text (selectionPopup (app w)))
              = text (selectionPopup (app w))).
  { induction Hw as [stored | w e _ IH]; [reflexivity|].
    rewrite step_selectionPopup.
    destruct e; auto; destruct (listening w); auto.
    - destruct (handleTextSelection_cases doc (selectionPopup (app w)))
        as [(t & rect & _ & ->)|[->| ->]]; simpl; auto using trim_idempotent.
    - destruct contains as [[|]|]; simpl; auto. }
  split; [exact H|].
  intros c r E. apply (trim_ends (text (selectionPopup (app w)))).
  now rewrite H.
Qed.

Lemma popup_text_is_trimmed_witness :
  let w := run (initial_world None) [Mount; MouseUp doc_hello; MouseUp doc_blank] in
  text (selectionPopup (app w)) = js:"hello"
  /\ JsString.trim (text (selectionPopup (app w))) = js:"hello".
Proof.
  intros w. split; [reflexivity|].
  destruct (popup_text_is_trimmed w) as [H _].
  - apply reachable_run. constructor.
  - rewrite H. reflexivity.
Defined.

(** X13. Both pointer handlers are idempotent: a second [mouseup] over the
    same document state, or a second [mousedown] at the same place, changes
    nothing. *)
Theorem pointer_handlers_idempotent doc contains prev :
  handleTextSelection doc (handleTextSelection doc prev)
    = handleTextSelection doc prev
  /\ handleClickOutside contains (handleClickOutside contains prev)
    = handleClickOutside contains prev.
Proof.
  split.
  - destruct (selectionText doc) as [t|] eqn:Ht.
    + destruct (JsString.trim t) as [|c r] eqn:Hne.
      * rewrite !handleTextSelection_blank by now rewrite Ht. reflexivity.
      * destruct (selectionRect doc) as [rect|] eqn:Hr.
        -- rewrite !(handleTextSelection_publish doc _ t rect Ht) by
             (auto; rewrite Hne; discriminate). reflexivity.
        -- rewrite !(handleTextSelection_no_rect doc _ t Ht) by
             (auto; rewrite Hne; discriminate). reflexivity.
    + rewrite !handleTextSelection_blank by now rewrite Ht. reflexivity.
  - destruct contains as [[|]|]; reflexivity.
Qed.

(** X14. Selecting again after the popup was dismissed, or after any other
    history, gives the state the selection gave the first time: with a
    non-blank selection and a rectangle, what is published does not depend
    on the previous popup state. *)
Theorem reselection_gives_same_popup doc t rect prev prev' contains :
  selectionText doc = Some t ->
  JsString.trim t <> [] ->
  selectionRect doc = Some rect ->
  handleTextSelection doc prev = handleTextSelection doc prev'
  /\ handleTextSelection doc
       (handleClickOutside contains (handleTextSelection doc prev))
     = handleTextSelection doc prev.
Proof.
  intros Ht Hne Hr.
  now rewrite !(handleTextSelection_publish doc _ t rect Ht Hne Hr).
Qed.

Lemma reselection_gives_same_popup_witness :
  handleTextSelection doc_hello
    (handleClickOutside None (handleTextSelection doc_hello initial_popup))
  = popup_hello.
Proof.
  apply (reselection_gives_same_popup doc_hello js:" hello "
           (mkRect 100 5 40 25) initial_popup initial_popup None).
  - reflexivity.
  - discriminate.
  - reflexivity.
Defined.

(** ** More on the render plan *)

Lemma block_Some s c : block s = Some c <-> c = s /\ s <> [].
Proof.
  unfold block. rewrite <- truthy_nonempty.
  destruct (JsString.truthy s); split.
  - intros [= <-]. auto.
  - intros [-> _]. reflexivity.
  - discriminate.
  - intros [_ H]. discriminate.
Qed.

(** X16. The loading animation and the answer block are never rendered
    together, and each content block is rendered exactly when its slot is
    non-empty, with that slot's content: the search block does not depend
    on [answer], nor the answer block on [searchAnswer]. *)
Theorem render_blocks s :
  ~ (is_Some (answerAnimation (render s)) /\ is_Some (answerBlock (render s)))
  /\ (forall c, summaryBlock (render s) = Some c <-> c = summary s /\ summary s <> [])
  /\ (forall c, answerBlock (render s) = Some c <-> c = answer s /\ answer s <> [])
  /\ (forall c, searchBlock (render s) = Some c
                <-> c = searchAnswer s /\ searchAnswer s <> []).
Proof.
  split; [|split; [|split]]; try (intros c; apply block_Some).
  intros [[K HK] [c Hc]]. simpl in HK, Hc.
  apply animation_Some in HK as (_ & _ & Ha).
  apply block_Some in Hc as [_ Hne]. contradiction.
Qed.

(** ** [ContentSection]: the copy button *)

Lemma copy_run_cons (w : ContentSection.World) e tr :
  ContentSection.run w (e :: tr) = ContentSection.run (ContentSection.step w e) tr.
Proof. reflexivity. Qed.

Lemma copy_reachable_run w tr :
  ContentSection.reachable w -> ContentSection.reachable (ContentSection.run w tr).
Proof.
  revert w. induction tr as [|e tr IH]; intros w Hw; simpl; auto.
  apply IH. now constructor.
Qed.

Lemma copy_step_WriteSettled w id ok text :
  ContentSection.writes w !! id = Some text ->
  ContentSection.step w (ContentSection.WriteSettled id ok)
    = ContentSection.handleCopy_resume id ok w.
Proof. intros H. simpl. now rewrite H. Qed.

(** X17. While the button says "Copied!", a timer that will take it back
    is pending: in every reachable state [copied] implies that at least one
    2000 ms timer has not fired yet; and once every timer has fired the
    button offers to copy again. *)
Theorem copied_has_pending_timer w :
  ContentSection.reachable w ->
  (ContentSection.copied w = true -> (0 < ContentSection.timers w)%nat)
  /\ (ContentSection.timers w = 0%nat ->
      ContentSection.button_title w = js:"Copy to clipboard").
Proof.
  intros Hw.
  assert (H : ContentSection.copied w = true -> (0 < ContentSection.timers w)%nat).
  { induction Hw as [|w e _ IH]; simpl; [discriminate|].
    destruct e as [content | id ok |]; simpl.
    - exact IH.
    - destruct (ContentSection.writes w !! id); [|exact IH].
      unfold ContentSection.handleCopy_resume.
      destruct ok; simpl; [lia | exact IH].
    - destruct (ContentSection.timers w) eqn:E; [|simpl; discriminate].
      rewrite E. exact IH. }
  split; [exact H|].
  intros Ht. unfold ContentSection.button_title.
  destruct (ContentSection.copied w); [|reflexivity].
  specialize (H eq_refl). lia.
Qed.

Lemma copied_has_pending_timer_witness :
  let w := ContentSection.run ContentSection.initial_world
             [ContentSection.CopyClick js:"# Hello";
              ContentSection.WriteSettled 0 true] in
  ContentSection.copied w = true /\ (0 < ContentSection.timers w)%nat.
Proof.
  intros w. split; [reflexivity|].
  apply (copied_has_pending_timer w).
  - apply copy_reachable_run. constructor.
  - reflexivity.
Defined.

(** X18. A copy whose clipboard write is rejected gives no feedback: the
    button title, [copied] and the timers are as before the click, and the
    failure is logged once.  The text handed to [writeText] is the content
    at the time of the click. *)
Theorem failed_copy_gives_no_feedback w content :
  let id := ContentSection.nextWrite w in
  let w1 := ContentSection.step w (ContentSection.CopyClick content) in
  let w2 := ContentSection.step w1 (ContentSection.WriteSettled id false) in
  ContentSection.writes w1 !! id = Some content
  /\ ContentSection.button_title w1 = ContentSection.button_title w
  /\ ContentSection.button_title w2 = ContentSection.button_title w
  /\ ContentSection.copied w2 = ContentSection.copied w
  /\ ContentSection.timers w2 = ContentSection.timers w
  /\ ContentSection.errors w2 = S (ContentSection.errors w).
Proof.
  cbv zeta.
  assert (H : ContentSection.writes
                (ContentSection.step w (ContentSection.CopyClick content))
                !! ContentSection.nextWrite w = Some content).
  { simpl. apply lookup_insert_eq. }
  rewrite (copy_step_WriteSettled _ _ _ _ H).
  split; [exact H|]. now repeat split.
Qed.

(** X19. The timers are not cancelled: when two copies succeed, the timer
    of the first takes "Copied!" back while the timer of the second is
    still pending, so the second confirmation is shown for less than its
    2000 ms. *)
Theorem first_timer_resets_second_copy w id1 id2 text1 text2 :
  id1 <> id2 ->
  ContentSection.writes w !! id1 = Some text1 ->
  ContentSection.writes w !! id2 = Some text2 ->
  let w2 := ContentSection.run w [ContentSection.WriteSettled id1 true;
                                  ContentSection.WriteSettled id2 true] in
  let w3 := ContentSection.step w2 ContentSection.TimerFired in
  ContentSection.copied w2 = true
  /\ ContentSection.timers w2 = S (S (ContentSection.timers w))
  /\ ContentSection.copied w3 = false
  /\ ContentSection.button_title w3 = js:"Copy to clipboard"
  /\ ContentSection.timers w3 = S (ContentSection.timers w).
Proof.
  intros Hne H1 H2. cbv zeta.
  rewrite copy_run_cons, (copy_step_WriteSettled _ _ _ _ H1).
  unfold ContentSection.run, fold_left.
  assert (H2' : ContentSection.writes
                  (ContentSection.handleCopy_resume id1 true w) !! id2
                = Some text2).
  { simpl. now rewrite lookup_delete_ne. }
  rewrite (copy_step_WriteSettled _ _ _ _ H2'). now repeat split.
Qed.

Lemma first_timer_resets_second_copy_witness :
  let w := ContentSection.run ContentSection.initial_world
             [ContentSection.CopyClick js:"# Hello";
              ContentSection.CopyClick js:"# Hello"] in
  ContentSection.copied
    (ContentSection.step
       (ContentSection.run w [ContentSection.WriteSettled 0 true;
                              ContentSection.WriteSettled 1 true])
       ContentSection.TimerFired) = false.
Proof.
  intros w.
  apply (first_timer_resets_second_copy w 0 1 js:"# Hello" js:"# Hello").
  - discriminate.
  - reflexivity.
  - reflexivity.
Defined.
